(** * codec-compare: metric catalogue, ratio statistics and selection panels

    A shallow embedding of [src/metric.ts], of the [BatchSelection]
    constructor and of the [MatchesUi] request handlers, together with the
    properties of these functions that the design document states.

    Conventions of the embedding:
    - a JavaScript [number] is an IEEE-754 binary64 value, represented by
      the Standard Library's [spec_float] with [prec = 53], [emax = 1024];
    - array indices and batch indices are natural numbers; an out-of-range
      array read gives [None] (JavaScript's [undefined]);
    - [FieldMetric] objects live in a store and arrays of metrics hold
      locations, so that [m !== xMetric] is a comparison of locations and
      a mutation is seen through every alias;
    - reading a property of [undefined] raises a [TypeError]; functions
      that can do so return a [completion]. *)

From Stdlib Require Import ZArith SpecFloat Lia.
From stdpp Require Import base option list strings gmap.

(** ** JavaScript numbers

    The doubles are the [spec_float] values that [valid_binary] accepts;
    the statements below are proved for every [spec_float] value, hence
    for every double. *)

Module Number.

Definition number : Type := spec_float.

Definition prec : Z := 53.
Definition emax : Z := 1024.

(** The double nearest to an integer (exact for the small literals used
    below). *)
Definition of_Z (z : Z) : number := binary_normalize prec emax z 0 false.

Definition zero : number := S754_zero false.
Definition one : number := of_Z 1.
Definition Infinity : number := S754_infinity false.
Definition NaN : number := S754_nan.

Definition add (a b : number) : number := SFadd prec emax a b.
Definition div (a b : number) : number := SFdiv prec emax a b.

(** [a === b] on numbers: [NaN] differs from everything, [+0 === -0]. *)
Definition strict_eq (a b : number) : bool := SFeqb a b.
Definition lt (a b : number) : bool := SFltb a b.
Definition le (a b : number) : bool := SFleb a b.

Definition is_nan (a : number) : bool :=
  match a with S754_nan => true | _ => false end.

(** A number other than [NaN] and the infinities. *)
Definition is_finite (a : number) : bool :=
  match a with
  | S754_zero _ | S754_finite _ _ _ => true
  | _ => false
  end.

Definition is_neg_zero (a : number) : bool :=
  match a with S754_zero true => true | _ => false end.

Definition is_pos_zero (a : number) : bool :=
  match a with S754_zero false => true | _ => false end.

(** [Math.min(a, b)]: [NaN] if either argument is [NaN]; [-0] is treated
    as smaller than [+0]. *)
Definition Math_min (a b : number) : number :=
  if is_nan a || is_nan b then NaN
  else if lt a b then a
  else if lt b a then b
  else if is_neg_zero a then a else b.

(** [Math.max(a, b)]: [NaN] if either argument is [NaN]; [+0] is treated
    as larger than [-0]. *)
Definition Math_max (a b : number) : number :=
  if is_nan a || is_nan b then NaN
  else if lt a b then b
  else if lt b a then a
  else if is_pos_zero a then a else b.

End Number.

Import Number.

Declare Scope number_scope.
Delimit Scope number_scope with num.
Bind Scope number_scope with number.
Notation "a === b" := (strict_eq a b) (at level 70, no associativity) : number_scope.
Notation "a / b" := (div a b) : number_scope.
Notation "a + b" := (add a b) : number_scope.

(** ** [getRatio] (metric.ts, l. 131-133) *)

Definition getRatio (a b : number) : number :=
  if (b === zero)%num then (if (a === zero)%num then one else Infinity)
  else (a / b)%num.

(** ** Completions

    A call either returns, or raises the [TypeError] of a property read on
    [undefined], or applies an [as number] cast to a value that is not a
    number.  The last case lies outside the typed semantics of the
    program and is kept apart as [Untyped]. *)

Inductive completion (A : Type) : Type :=
  | Normal (a : A)
  | TypeError
  | Untyped.
Arguments Normal {A} a.
Arguments TypeError {A}.
Arguments Untyped {A}.

#[global] Instance completion_ret : MRet completion := @Normal.
#[global] Instance completion_bind : MBind completion := λ A B f c,
  match c with
  | Normal a => f a
  | TypeError => TypeError
  | Untyped => Untyped
  end.

(** ** Data model (entry.ts, matcher.ts and metric.ts) *)

(** Modelled from the spec: the [FieldId] enumeration is declared in
    entry.ts, which is not part of the sources at hand.  The members named
    by metric.ts are kept apart; every other member is an [OTHER_ID]. *)
Inductive FieldId : Type :=
  | WIDTH | HEIGHT | EFFORT | QUALITY
  | ENCODED_SIZE | ENCODING_DURATION | DECODING_DURATION
  | OTHER_ID (tag : nat).

#[global] Instance FieldId_eq_dec : EqDecision FieldId.
Proof. solve_decision. Defined.

(** Modelled from the spec: the members of [Field] read by the sources at
    hand (semantic id, numeric flag, observed range, observed values). *)
Record Field : Type := mkField {
  id : FieldId;
  isNumber : bool;
  rangeStart : number;
  rangeEnd : number;
  uniqueValuesArray : list string;
}.

(** A cell of a row is a string or a number. *)
Inductive Value : Type :=
  | VNumber (x : number)
  | VString (s : string).

(** Modelled from the spec: the members of [Batch] read by the sources at
    hand. *)
Record Batch : Type := mkBatch {
  index : nat;
  fields : list Field;
  rows : list (list Value);
}.

(** [Match] (matcher.ts): a pair of row indices. *)
Record Match : Type := mkMatch {
  leftIndex : nat;
  rightIndex : nat;
}.

(** [FieldMetric] (metric.ts, l. 20-28); [enabled] starts as [false]. *)
Record FieldMetric : Type := mkFieldMetric {
  enabled : bool;
  fieldIndices : list nat;
}.

Definition new_FieldMetric (fieldIndices : list nat) : FieldMetric :=
  {| enabled := false; fieldIndices := fieldIndices |}.

(** The store of [FieldMetric] objects: a location is a position in it. *)
Abbreviation loc := nat.
Abbreviation store := (list FieldMetric).

Definition alloc (σ : store) (m : FieldMetric) : store * loc :=
  (σ ++ [m], length σ).

(** [FieldMetricStats] (metric.ts, l. 31-40) and its field initialisers. *)
Record FieldMetricStats : Type := mkStats {
  geometricMean : number;
  minRatio : number;
  maxRatio : number;
  arithmeticMean : number;
}.

Definition new_FieldMetricStats : FieldMetricStats :=
  {| geometricMean := one; minRatio := one; maxRatio := one;
     arithmeticMean := one |}.

Definition getMean (s : FieldMetricStats) (geometric : bool) : number :=
  if geometric then geometricMean s else arithmeticMean s.

(** ** Array helpers *)

(** [Array.prototype.findIndex]; [None] stands for the result [-1]. *)
Fixpoint findIndex {A : Type} (p : A → bool) (l : list A) : option nat :=
  match l with
  | [] => None
  | x :: l' => if p x then Some 0%nat else S <$> findIndex p l'
  end.

(** [Array.prototype.entries]: the elements paired with their indices. *)
Fixpoint entries_from {A : Type} (i : nat) (l : list A) : list (nat * A) :=
  match l with
  | [] => []
  | x :: l' => (i, x) :: entries_from (S i) l'
  end.

Definition entries {A : Type} (l : list A) : list (nat * A) :=
  entries_from 0 l.

(** ** [createMetrics] (metric.ts, l. 43-79) *)

Definition isDimension (i : FieldId) : bool :=
  bool_decide (i = WIDTH) || bool_decide (i = HEIGHT).

Definition isSetting (i : FieldId) : bool :=
  bool_decide (i = EFFORT) || bool_decide (i = QUALITY).

Section MetricCatalog.

(** [areFieldsComparable] is defined in entry.ts; the catalogue is
    modelled for an arbitrary comparability test. *)
Variable areFieldsComparable : Field → Field → bool.

(** The loop [for (let i = 1; i < batches.length; ++i)] over the batches
    after the first one.  It stops at the first batch without a comparable
    field ([break]). *)
Fixpoint alignOthers (field : Field) (others : list Batch)
    (fieldIndices : list nat) (isNum : bool) : completion (list nat * bool) :=
  match others with
  | [] => Normal (fieldIndices, isNum)
  | otherBatch :: rest =>
      match findIndex (areFieldsComparable field) (fields otherBatch) with
      | None => Normal (fieldIndices, isNum)
      | Some otherFieldIndex =>
          let fieldIndices := fieldIndices ++ [otherFieldIndex] in
          let otherField := fields otherBatch !! otherFieldIndex in
          isNum ← (if isNum then
                     match otherField with
                     | Some f => Normal (isNumber f)
                     | None => TypeError
                     end
                   else Normal false);
          alignOthers field rest fieldIndices isNum
      end
  end.

(** One iteration of the loop over the fields of the first batch. *)
Definition visitField (batches : list Batch) (fieldIndex : nat)
    (field : Field) (σ : store) (metrics : list loc)
    : store * completion (list loc) :=
  match alignOthers field (drop 1 batches) [fieldIndex] (isNumber field) with
  | Normal (fieldIndices, isNum) =>
      if negb (length fieldIndices =? length batches)%nat then
        (σ, Normal metrics)
      else if negb isNum then (σ, Normal metrics)
      else if isDimension (id field) then (σ, Normal metrics)
      else if isSetting (id field) then (σ, Normal metrics)
      else
        let '(σ', l) := alloc σ (new_FieldMetric fieldIndices) in
        (σ', Normal (metrics ++ [l]))
  | TypeError => (σ, TypeError)
  | Untyped => (σ, Untyped)
  end.

Fixpoint visitFields (batches : list Batch) (es : list (nat * Field))
    (σ : store) (metrics : list loc) : store * completion (list loc) :=
  match es with
  | [] => (σ, Normal metrics)
  | (fieldIndex, field) :: es' =>
      match visitField batches fieldIndex field σ metrics with
      | (σ', Normal metrics') => visitFields batches es' σ' metrics'
      | r => r
      end
  end.

Definition createMetrics (batches : list Batch) (σ : store)
    : store * completion (list loc) :=
  match batches with
  | [] => (σ, Normal [])
  | first :: _ => visitFields batches (entries (fields first)) σ []
  end.

End MetricCatalog.

(** *** Vocabulary for the statements about [createMetrics] *)

(** The indices found by the inner loop of [createMetrics] before it ends:
    one per batch, up to the first batch without a comparable field. *)
Fixpoint foundIndices (cmp : Field → Field → bool) (field : Field)
    (others : list Batch) : list nat :=
  match others with
  | [] => []
  | otherBatch :: rest =>
      match findIndex (cmp field) (fields otherBatch) with
      | None => []
      | Some j => j :: foundIndices cmp field rest
      end
  end.

(** The first field of [b] that is comparable with [field]. *)
Definition firstComparable (cmp : Field → Field → bool) (field : Field)
    (b : Batch) : option Field :=
  j ← findIndex (cmp field) (fields b); fields b !! j.

(** [b] has a field comparable with [field], and the first one is
    numeric. *)
Definition hasNumericMatch (cmp : Field → Field → bool) (field : Field)
    (b : Batch) : bool :=
  match firstComparable cmp field b with
  | Some f => isNumber f
  | None => false
  end.

(** The fields of the first batch for which a metric is made. *)
Definition eligible (cmp : Field → Field → bool) (batches : list Batch)
    (field : Field) : bool :=
  isNumber field && forallb (hasNumericMatch cmp field) (drop 1 batches)
  && negb (isDimension (id field)) && negb (isSetting (id field)).

(** The metric that is made for the field [e.2] at the index [e.1]. *)
Definition metricFor (cmp : Field → Field → bool) (batches : list Batch)
    (e : nat * Field) : FieldMetric :=
  new_FieldMetric (e.1 :: foundIndices cmp e.2 (drop 1 batches)).

(** The number of fields of [b] that are comparable with [field]. *)
Definition comparableCount (cmp : Field → Field → bool) (field : Field)
    (b : Batch) : nat :=
  length (filter (λ f, cmp field f = true) (fields b)).

(** Modelled from the spec: [areFieldsComparable] (entry.ts) holds of two
    fields with the same semantic id and the same numeric-ness. *)
Definition sameIdAndKind (a b : Field) : bool :=
  bool_decide (id a = id b) && bool_decide (isNumber a = isNumber b).

(** ** [enableDefaultMetrics] (metric.ts, l. 82-92) *)

Definition set_enabled (m : FieldMetric) : FieldMetric :=
  {| enabled := true; fieldIndices := fieldIndices m |}.

(** [firstBatch.fields[metric.fieldIndices[0]]], [None] when either array
    read is out of range. *)
Definition firstField (firstBatch : Batch) (m : FieldMetric) : option Field :=
  i ← head (fieldIndices m); fields firstBatch !! i.

Definition isDefaultMetricId (i : FieldId) : bool :=
  bool_decide (i = ENCODED_SIZE) || bool_decide (i = ENCODING_DURATION)
  || bool_decide (i = DECODING_DURATION).

Fixpoint enableDefaultMetrics (firstBatch : Batch) (metrics : list loc)
    (σ : store) : store * completion unit :=
  match metrics with
  | [] => (σ, Normal ())
  | metric :: rest =>
      match σ !! metric with
      | None => (σ, TypeError)
      | Some m =>
          match firstField firstBatch m with
          | None => (σ, TypeError)
          | Some field =>
              let σ' := if isDefaultMetricId (id field)
                        then <[metric := set_enabled m]> σ else σ in
              enableDefaultMetrics firstBatch rest σ'
          end
      end
  end.

(** ** [selectPlotMetrics] (metric.ts, l. 95-128) *)

(** [Array.prototype.find] with a callback that may raise. *)
Fixpoint find_c {A : Type} (p : A → completion bool) (l : list A)
    : completion (option A) :=
  match l with
  | [] => Normal None
  | x :: l' => b ← p x; if b : bool then Normal (Some x) else find_c p l'
  end.

Section SelectPlotMetrics.

Variable σ : store.
Variable firstBatch : Batch.

Definition metricToFieldId (m : FieldMetric) : completion FieldId :=
  match firstField firstBatch m with
  | Some field => Normal (id field)
  | None => TypeError
  end.

(** [m => m.enabled && metricToFieldId(m) === target] *)
Definition enabledWithId (target : FieldId) (l : loc) : completion bool :=
  match σ !! l with
  | None => TypeError
  | Some m =>
      if enabled m then i ← metricToFieldId m; Normal (bool_decide (i = target))
      else Normal false
  end.

(** [m => m.enabled] *)
Definition isEnabled (l : loc) : completion bool :=
  match σ !! l with
  | None => TypeError
  | Some m => Normal (enabled m)
  end.

(** [m => m.enabled && m !== xMetric] *)
Definition enabledAndNot (xMetric : option loc) (l : loc) : completion bool :=
  match σ !! l with
  | None => TypeError
  | Some m => Normal (enabled m && bool_decide (Some l ≠ xMetric))
  end.

(** The part of [selectPlotMetrics] after its first [return]: the first
    two enabled metrics, else whatever comes first. *)
Definition selectEnabledOrFirst (metrics : list loc)
    : completion (option loc * option loc) :=
  xMetric ← find_c isEnabled metrics;
  yMetric ← find_c (enabledAndNot xMetric) metrics;
  if xMetric is Some x then Normal (Some x, Some (default x yMetric))
  else Normal (if (0 <? length metrics)%nat
               then (metrics !! 0%nat, metrics !! 0%nat) else (None, None)).

Definition selectPlotMetrics (metrics : list loc)
    : completion (option loc * option loc) :=
  xMetric ← find_c (enabledWithId ENCODED_SIZE) metrics;
  yMetric ← find_c (enabledWithId ENCODING_DURATION) metrics;
  yMetric ← (if yMetric is None
             then find_c (enabledWithId DECODING_DURATION) metrics
             else Normal yMetric);
  match xMetric, yMetric with
  | Some x, Some y => Normal (Some x, Some y)
  | _, _ => selectEnabledOrFirst metrics
  end.

End SelectPlotMetrics.

(** *** Vocabulary for the statements about the metrics of a store *)

(** Every metric of the list is an object of the store whose first index
    names a field of the first batch. *)
Definition metricsOk (firstBatch : Batch) (σ : store) (metrics : list loc)
    : Prop :=
  ∀ l, l ∈ metrics →
    ∃ m field, σ !! l = Some m ∧ firstField firstBatch m = Some field.

(** Every metric of the list is an object of the store, and the first
    index of every enabled one names a field of the first batch. *)
Definition plotInputOk (firstBatch : Batch) (σ : store) (metrics : list loc)
    : Prop :=
  ∀ l, l ∈ metrics →
    ∃ m, σ !! l = Some m ∧
         (enabled m = true → is_Some (firstField firstBatch m)).

Definition enabledAt (σ : store) (l : loc) : bool :=
  default false (enabled <$> σ !! l).

Definition fieldIdAt (σ : store) (firstBatch : Batch) (l : loc)
    : option FieldId :=
  m ← σ !! l; field ← firstField firstBatch m; Some (id field).

Definition enabledWithIdAt (σ : store) (firstBatch : Batch)
    (target : FieldId) (l : loc) : bool :=
  enabledAt σ l && bool_decide (fieldIdAt σ firstBatch l = Some target).

(** The selection that the design document describes, in its four steps. *)
Definition selectPlotMetrics_by_precedence (σ : store) (firstBatch : Batch)
    (metrics : list loc) : option loc * option loc :=
  let size := List.find (enabledWithIdAt σ firstBatch ENCODED_SIZE) metrics in
  let duration :=
    match List.find (enabledWithIdAt σ firstBatch ENCODING_DURATION) metrics with
    | Some y => Some y
    | None => List.find (enabledWithIdAt σ firstBatch DECODING_DURATION) metrics
    end in
  match size, duration with
  | Some x, Some y => (Some x, Some y)
  | _, _ =>
      match List.find (enabledAt σ) metrics with
      | Some x =>
          (Some x,
           Some (default x
                   (List.find (λ l, enabledAt σ l && bool_decide (l ≠ x))
                      metrics)))
      | None =>
          match metrics with
          | first :: _ => (Some first, Some first)
          | [] => (None, None)
          end
      end
  end.

(** ** [computeStats] (metric.ts, l. 139-181) *)

(** [GeometricMean] is defined in geometric_mean.ts; the aggregator is
    modelled for an arbitrary accumulator with its three operations. *)
Class GeometricMeanOps : Type := {
  GeometricMean : Type;
  new_GeometricMean : GeometricMean;
  gm_add : GeometricMean → number → GeometricMean;
  gm_get : GeometricMean → number;
}.

(** [batch.rows[rowIndex][fieldIndex] as number].  Indexing a missing row
    raises; a missing cell or a string under the cast is [Untyped]. *)
Definition readNumber (batch : Batch) (rowIndex : nat)
    (fieldIndex : option nat) : completion number :=
  match rows batch !! rowIndex with
  | None => TypeError
  | Some row =>
      match fieldIndex ≫= (row !!.) with
      | Some (VNumber x) => Normal x
      | _ => Untyped
      end
  end.

Section ComputeStats.

Context `{GM : GeometricMeanOps}.

(** The local variables of one iteration of the loop over the metrics. *)
Record Locals : Type := mkLocals {
  fieldStats : FieldMetricStats;
  numDataPoints : nat;
  geometricMeanAcc : GeometricMean;
  leftSum : number;
  rightSum : number;
}.

Definition initialLocals : Locals :=
  {| fieldStats := new_FieldMetricStats; numDataPoints := 0;
     geometricMeanAcc := new_GeometricMean;
     leftSum := zero; rightSum := zero |}.

Definition set_min_max (s : FieldMetricStats) (lo hi : number)
    : FieldMetricStats :=
  {| geometricMean := geometricMean s; minRatio := lo; maxRatio := hi;
     arithmeticMean := arithmeticMean s |}.

Definition set_means (s : FieldMetricStats) (g a : number)
    : FieldMetricStats :=
  {| geometricMean := g; minRatio := minRatio s; maxRatio := maxRatio s;
     arithmeticMean := a |}.

(** The statements of the loop body that follow the two reads. *)
Definition updateLocals (st : Locals) (leftValue rightValue : number)
    : Locals :=
  let ratio := getRatio leftValue rightValue in
  let fs :=
    if (numDataPoints st =? 0)%nat
    then set_min_max (fieldStats st) ratio ratio
    else set_min_max (fieldStats st)
           (Math_min (minRatio (fieldStats st)) ratio)
           (Math_max (maxRatio (fieldStats st)) ratio) in
  {| fieldStats := fs;
     numDataPoints := S (numDataPoints st);
     geometricMeanAcc := gm_add (geometricMeanAcc st) ratio;
     leftSum := (leftSum st + leftValue)%num;
     rightSum := (rightSum st + rightValue)%num |}.

(** The statements after the loop over the data points. *)
Definition finishStats (st : Locals) : FieldMetricStats :=
  if (0 <? numDataPoints st)%nat
  then set_means (fieldStats st) (gm_get (geometricMeanAcc st))
         (getRatio (leftSum st) (rightSum st))
  else fieldStats st.

Variables leftBatch rightBatch : Batch.

(** The body of [for (const dataPoint of dataPoints)]. *)
Definition addDataPoint (leftFieldIndex rightFieldIndex : option nat)
    (st : Locals) (dataPoint : Match) : completion Locals :=
  leftValue ← readNumber leftBatch (leftIndex dataPoint) leftFieldIndex;
  rightValue ← readNumber rightBatch (rightIndex dataPoint) rightFieldIndex;
  Normal (updateLocals st leftValue rightValue).

Fixpoint addDataPoints (leftFieldIndex rightFieldIndex : option nat)
    (dataPoints : list Match) (st : Locals) : completion Locals :=
  match dataPoints with
  | [] => Normal st
  | dataPoint :: rest =>
      st' ← addDataPoint leftFieldIndex rightFieldIndex st dataPoint;
      addDataPoints leftFieldIndex rightFieldIndex rest st'
  end.

(** The body of [for (const metric of metrics)]. *)
Definition metricStats (σ : store) (dataPoints : list Match) (metric : loc)
    : completion FieldMetricStats :=
  match σ !! metric with
  | None => TypeError
  | Some m =>
      let leftFieldIndex := fieldIndices m !! index leftBatch in
      let rightFieldIndex := fieldIndices m !! index rightBatch in
      st ← addDataPoints leftFieldIndex rightFieldIndex dataPoints
             initialLocals;
      Normal (finishStats st)
  end.

Fixpoint computeStats_loop (σ : store) (dataPoints : list Match)
    (metrics : list loc) (stats : list FieldMetricStats)
    : completion (list FieldMetricStats) :=
  match metrics with
  | [] => Normal stats
  | metric :: rest =>
      fs ← metricStats σ dataPoints metric;
      computeStats_loop σ dataPoints rest (stats ++ [fs])
  end.

Definition computeStats (σ : store) (dataPoints : list Match)
    (metrics : list loc) : completion (list FieldMetricStats) :=
  computeStats_loop σ dataPoints metrics [].

End ComputeStats.

(** *** Vocabulary for the statements about [computeStats] *)

Definition sum (xs : list number) : number := foldl add zero xs.

Definition not_nan (a : number) : Prop := is_nan a = false.

(** [x] is the least element of [rs]. *)
Definition is_minimum (x : number) (rs : list number) : Prop :=
  x ∈ rs ∧ ∀ r, r ∈ rs → le x r = true.

(** [x] is the greatest element of [rs]. *)
Definition is_maximum (x : number) (rs : list number) : Prop :=
  x ∈ rs ∧ ∀ r, r ∈ rs → le r x = true.

(** The pairs (left value, right value) that the rows of the data points
    hold in the columns [leftFieldIndex] and [rightFieldIndex], read in
    the order of the loop. *)
Fixpoint readPairs (leftBatch rightBatch : Batch)
    (leftFieldIndex rightFieldIndex : option nat) (dataPoints : list Match)
    : completion (list (number * number)) :=
  match dataPoints with
  | [] => Normal []
  | dataPoint :: rest =>
      leftValue ← readNumber leftBatch (leftIndex dataPoint) leftFieldIndex;
      rightValue ← readNumber rightBatch (rightIndex dataPoint) rightFieldIndex;
      ps ← readPairs leftBatch rightBatch leftFieldIndex rightFieldIndex rest;
      Normal ((leftValue, rightValue) :: ps)
  end.

(** The value pairs of the data points for the metric [m]. *)
Definition metricPairs (leftBatch rightBatch : Batch) (m : FieldMetric)
    (dataPoints : list Match) : completion (list (number * number)) :=
  readPairs leftBatch rightBatch
    (fieldIndices m !! index leftBatch) (fieldIndices m !! index rightBatch)
    dataPoints.

Definition ratios (ps : list (number * number)) : list number :=
  (λ p, getRatio p.1 p.2) <$> ps.

(** Every metric is an object of the store, and every cell that
    [computeStats] reads for it exists and holds a number. *)
Definition statsInputOk (leftBatch rightBatch : Batch) (σ : store)
    (dataPoints : list Match) (metrics : list loc) : Prop :=
  ∀ l, l ∈ metrics →
    ∃ m ps, σ !! l = Some m ∧
            metricPairs leftBatch rightBatch m dataPoints = Normal ps.

(** ** Events (events.ts) *)

(** Modelled from the spec: the event types named by the sources at hand.
    Every event carries the index of a batch. *)
Inductive EventType : Type :=
  | FILTER_CHANGED
  | FILTERED_DATA_CHANGED
  | MATCHES_INFO_REQUEST
  | MATCH_INFO_REQUEST
  | BATCH_INFO_REQUEST
  | FILTERED_DATA_INFO_REQUEST.

(** ** [BatchSelection] (batch_selection.ts) *)

Module Filter.

(** Modelled from the spec: the members of [FieldFilter] (filter.ts) that
    the constructor of [BatchSelection] assigns.  The accepted values form
    a [Set<string>]. *)
Record FieldFilter : Type := mkFieldFilter {
  rangeStart : number;
  rangeEnd : number;
  uniqueValues : gset string;
}.

(** Modelled from the spec: a filter made by [new FieldFilter()] accepts
    no value yet. *)
Definition new_FieldFilter : FieldFilter :=
  {| rangeStart := zero; rangeEnd := zero; uniqueValues := ∅ |}.

Definition set_rangeStart (f : FieldFilter) (x : number) : FieldFilter :=
  {| rangeStart := x; rangeEnd := rangeEnd f;
     uniqueValues := uniqueValues f |}.

Definition set_rangeEnd (f : FieldFilter) (x : number) : FieldFilter :=
  {| rangeStart := rangeStart f; rangeEnd := x;
     uniqueValues := uniqueValues f |}.

(** [fieldFilter.uniqueValues.add(value)] *)
Definition uniqueValues_add (f : FieldFilter) (value : string) : FieldFilter :=
  {| rangeStart := rangeStart f; rangeEnd := rangeEnd f;
     uniqueValues := {[value]} ∪ uniqueValues f |}.

End Filter.


Abbreviation FieldFilter := Filter.FieldFilter.

(** The calls that the constructor and the listener of a [BatchSelection]
    make into other modules, in the order in which they are made. *)
Inductive Call : Type :=
  | Call_enableDefaultFilters (batch : Batch) (fieldFilters : list FieldFilter)
  | Call_getFilteredRowIndices (batch : Batch) (fieldFilters : list FieldFilter)
  | Call_listen (type : EventType)
  | Call_dispatch (type : EventType) (batchIndex : nat).

Record BatchSelection : Type := mkBatchSelection {
  batch : Batch;
  fieldFilters : list FieldFilter;
  filteredRowIndices : list nat;
  matchedDataPoints : list Match;
  stats : list FieldMetricStats;
}.

(** The body of [for (const field of selectedBatch.fields)]: the filter
    that is pushed for [field]. *)
Definition createFieldFilter (field : Field) : FieldFilter :=
  let fieldFilter := Filter.new_FieldFilter in
  let fieldFilter := Filter.set_rangeStart fieldFilter (rangeStart field) in
  let fieldFilter := Filter.set_rangeEnd fieldFilter (rangeEnd field) in
  if negb (isNumber field)
  then foldl Filter.uniqueValues_add fieldFilter (uniqueValuesArray field)
  else fieldFilter.

Fixpoint createFieldFilters (fs : list Field) (fieldFilters : list FieldFilter)
    : list FieldFilter :=
  match fs with
  | [] => fieldFilters
  | field :: rest =>
      createFieldFilters rest (fieldFilters ++ [createFieldFilter field])
  end.

Section BatchSelection.

(** [enableDefaultFilters] and [getFilteredRowIndices] are defined in
    filter.ts.  The former updates the array of filters it is given and is
    modelled by the array it leaves behind. *)
Variable enableDefaultFilters : Batch → list FieldFilter → list FieldFilter.
Variable getFilteredRowIndices : Batch → list FieldFilter → list nat.

(** [new BatchSelection(selectedBatch)]: the object and the calls made. *)
Definition new_BatchSelection (selectedBatch : Batch)
    : BatchSelection * list Call :=
  let created := createFieldFilters (fields selectedBatch) [] in
  let defaulted := enableDefaultFilters selectedBatch created in
  ({| batch := selectedBatch;
      fieldFilters := defaulted;
      filteredRowIndices := [];
      matchedDataPoints := [];
      stats := [] |},
   [Call_enableDefaultFilters selectedBatch created;
    Call_listen FILTER_CHANGED]).

Definition updateFilteredRows (this : BatchSelection)
    : BatchSelection * list Call :=
  ({| batch := batch this;
      fieldFilters := fieldFilters this;
      filteredRowIndices := getFilteredRowIndices (batch this) (fieldFilters this);
      matchedDataPoints := matchedDataPoints this;
      stats := stats this |},
   [Call_getFilteredRowIndices (batch this) (fieldFilters this)]).

(** The listener registered for [FILTER_CHANGED]. *)
Definition onFilterChanged (this : BatchSelection) (batchIndex : nat)
    : BatchSelection * list Call :=
  if negb (batchIndex =? index (batch this))%nat then (this, [])
  else
    let '(this', calls) := updateFilteredRows this in
    (this', calls ++ [Call_dispatch FILTERED_DATA_CHANGED batchIndex]).

End BatchSelection.

(** *** Vocabulary for the statements about [BatchSelection] *)

Definition isEnableDefaultFiltersCall (c : Call) : bool :=
  match c with Call_enableDefaultFilters _ _ => true | _ => false end.

(** ** [MatchesUi] (matches_ui.ts) *)

(** Modelled from the spec: the members of [State] (state.ts) read by the
    panel. *)
Record State : Type := mkState {
  referenceBatchSelectionIndex : nat;
  batchSelections : list BatchSelection;
}.

Inductive Display : Type := display_none | display_block.

(** The panel: its [state] property, the batch selection it displays, its
    CSS [display] and the number of [requestUpdate()] calls made so far. *)
Record MatchesUi : Type := mkMatchesUi {
  state : State;
  batchSelection : option BatchSelection;
  style_display : Display;
  updatesRequested : nat;
}.

(** The listener for [MATCHES_INFO_REQUEST] (connectedCallback, l. 41-50). *)
Definition onMatchesInfoRequest (this : MatchesUi) (batchIndex : nat)
    : MatchesUi :=
  if (batchIndex =? referenceBatchSelectionIndex (state this))%nat then this
  else
    {| state := state this;
       batchSelection := batchSelections (state this) !! batchIndex;
       style_display := display_block;
       updatesRequested := S (updatesRequested this) |}.

(** The listener for [MATCH_INFO_REQUEST] (connectedCallback, l. 51-57). *)
Definition onMatchInfoRequest (this : MatchesUi) : MatchesUi :=
  if batchSelection this is None then this
  else
    {| state := state this;
       batchSelection := None;
       style_display := display_none;
       updatesRequested := S (updatesRequested this) |}.

(** ** Vocabulary and functions for the further properties *)

(** *** Vocabulary for the runs of [enableDefaultMetrics] *)

(** [l] is an object of the store whose first index names a field of the
    first batch: the loop of [enableDefaultMetrics] gets past it. *)
Definition metricOk (firstBatch : Batch) (σ : store) (l : loc) : bool :=
  match σ !! l ≫= firstField firstBatch with
  | Some _ => true
  | None => false
  end.

(** The metrics that the loop handles before it ends. *)
Fixpoint okPrefix (firstBatch : Batch) (σ : store) (metrics : list loc)
    : list loc :=
  match metrics with
  | [] => []
  | l :: rest =>
      if metricOk firstBatch σ l then l :: okPrefix firstBatch σ rest else []
  end.

Definition hasDefaultId (firstBatch : Batch) (m : FieldMetric) : bool :=
  match firstField firstBatch m with
  | Some field => isDefaultMetricId (id field)
  | None => false
  end.

(** What becomes of the object [m] at [l] when the metrics [handled] are
    handled. *)
Definition enableAt (firstBatch : Batch) (handled : list loc) (l : loc)
    (m : FieldMetric) : FieldMetric :=
  if bool_decide (l ∈ handled) && hasDefaultId firstBatch m
  then set_enabled m else m.

(** *** Vocabulary for the pipeline from the catalogue to the statistics *)

(** The metrics that [createMetrics] makes for the batches. *)
Definition catalogue (cmp : Field → Field → bool) (batches : list Batch)
    : list FieldMetric :=
  match batches with
  | [] => []
  | first :: _ =>
      metricFor cmp batches
        <$> filter (λ e, eligible cmp batches e.2 = true)
              (entries (fields first))
  end.

(** Every row of the batch holds a number in the column of every numeric
    field. *)
Definition rowsTyped (b : Batch) : Prop :=
  ∀ row j f,
    row ∈ rows b → fields b !! j = Some f → isNumber f = true →
    ∃ x, row !! j = Some (VNumber x).

(** Every match names a row of the left batch and a row of the right
    batch. *)
Definition matchesInRange (leftBatch rightBatch : Batch)
    (dataPoints : list Match) : Prop :=
  ∀ dp, dp ∈ dataPoints →
    (leftIndex dp < length (rows leftBatch))%nat ∧
    (rightIndex dp < length (rows rightBatch))%nat.

(** *** Vocabulary for the further statements about [getRatio] *)

Definition is_infinite (a : number) : bool :=
  match a with S754_infinity _ => true | _ => false end.

(** ** More of [BatchSelection] and [MatchesUi] *)

(** A run of the listener for [FILTER_CHANGED] over the events with the
    given batch indices, with the calls made. *)
Fixpoint onFilterChangedEvents
    (getFilteredRowIndices : Batch → list FieldFilter → list nat)
    (this : BatchSelection) (events : list nat)
    : BatchSelection * list Call :=
  match events with
  | [] => (this, [])
  | batchIndex :: rest =>
      let '(this1, calls1) :=
        onFilterChanged getFilteredRowIndices this batchIndex in
      let '(this2, calls2) :=
        onFilterChangedEvents getFilteredRowIndices this1 rest in
      (this2, calls1 ++ calls2)
  end.

(** [onClose] (render, l. 65-69). *)
Definition onClose (this : MatchesUi) : MatchesUi :=
  {| state := state this;
     batchSelection := None;
     style_display := display_none;
     updatesRequested := S (updatesRequested this) |}.

(** [onBatchInfoRequest] (render, l. 74-77): the panel and the event
    dispatched. *)
Definition onBatchInfoRequest (this : MatchesUi) (batchIndex : nat)
    : MatchesUi * list Call :=
  (onClose this, [Call_dispatch BATCH_INFO_REQUEST batchIndex]).

(** [onFilteredDataInfoRequest] (render, l. 78-81). *)
Definition onFilteredDataInfoRequest (this : MatchesUi) (batchIndex : nat)
    : MatchesUi * list Call :=
  (onClose this, [Call_dispatch FILTERED_DATA_INFO_REQUEST batchIndex]).

(** What can happen to the panel: the two events it listens to and the
    clicks on its dialog. *)
Inductive PanelEvent : Type :=
  | MatchesInfoRequested (batchIndex : nat)
  | MatchInfoRequested
  | CloseClicked
  | BatchInfoClicked (batchIndex : nat)
  | FilteredDataInfoClicked (batchIndex : nat).

Definition panelStep (this : MatchesUi) (ev : PanelEvent) : MatchesUi :=
  match ev with
  | MatchesInfoRequested batchIndex => onMatchesInfoRequest this batchIndex
  | MatchInfoRequested => onMatchInfoRequest this
  | CloseClicked => onClose this
  | BatchInfoClicked batchIndex => (onBatchInfoRequest this batchIndex).1
  | FilteredDataInfoClicked batchIndex =>
      (onFilteredDataInfoRequest this batchIndex).1
  end.

(** ** Example data *)

(** An accumulator for running the examples: it records the ratios it is
    given and reports the latest one ([1] before any). *)
#[local] Instance recordingMean : GeometricMeanOps := {|
  GeometricMean := list number;
  new_GeometricMean := [];
  gm_add := λ acc x, x :: acc;
  gm_get := λ acc, default one (head acc);
|}.

Definition exampleFields : list Field :=
  [ mkField (OTHER_ID 0) false zero zero ["A"];
    mkField ENCODED_SIZE true (of_Z 10) (of_Z 20) [];
    mkField ENCODING_DURATION true (of_Z 1) (of_Z 2) [] ].

Definition exampleLeft : Batch :=
  mkBatch 0 exampleFields [[VString "A"; VNumber (of_Z 10); VNumber (of_Z 2)]].

Definition exampleRight : Batch :=
  mkBatch 1 exampleFields [[VString "A"; VNumber (of_Z 20); VNumber (of_Z 1)]].

Definition exampleStore : store :=
  [ mkFieldMetric true [1%nat; 1%nat]; mkFieldMetric false [2%nat; 2%nat] ].

(** A store in which the encoding-duration metric comes before the
    encoded-size metric, both enabled. *)
Definition plotStore : store :=
  [ mkFieldMetric true [2%nat; 2%nat]; mkFieldMetric true [1%nat; 1%nat] ].

(** A default-filter policy for running the examples: it narrows every
    range to its lower bound. *)
Definition exampleDefaultFilters (b : Batch) (fieldFilters : list FieldFilter)
    : list FieldFilter :=
  (λ f, Filter.set_rangeEnd f (Filter.rangeStart f)) <$> fieldFilters.

(** Three rows per batch; the second right value is [0]. *)
Definition threeLeft : Batch :=
  mkBatch 0 exampleFields
    [ [VString "A"; VNumber (of_Z 1); VNumber (of_Z 1)];
      [VString "B"; VNumber (of_Z 5); VNumber (of_Z 1)];
      [VString "C"; VNumber (of_Z 4); VNumber (of_Z 1)] ].

Definition threeRight : Batch :=
  mkBatch 1 exampleFields
    [ [VString "A"; VNumber (of_Z 2); VNumber (of_Z 1)];
      [VString "B"; VNumber (of_Z 0); VNumber (of_Z 2)];
      [VString "C"; VNumber (of_Z 2); VNumber (of_Z 4)] ].

Definition threeMatches : list Match :=
  [mkMatch 0 0; mkMatch 1 1; mkMatch 2 2].

(** ** More example data *)

Definition exampleBatches : list Batch := [exampleLeft; exampleRight].

(** The store after [createMetrics] on the example batches. *)
Definition catalogueStore : store :=
  [ new_FieldMetric [1%nat; 1%nat]; new_FieldMetric [2%nat; 2%nat] ].

Definition examplePanel : MatchesUi :=
  {| state := {| referenceBatchSelectionIndex := 0;
                 batchSelections :=
                   [ mkBatchSelection exampleLeft [] [] [] [];
                     mkBatchSelection exampleRight [] [] [mkMatch 0 0] [] ] |};
     batchSelection := None;
     style_display := display_none;
     updatesRequested := 0 |}.

(** * Properties *)

(** ** [getRatio] *)

(** C1. [getRatio] is a total function of two numbers: when [b === 0] it
    returns [1] if [a === 0] as well and [+Infinity] otherwise; when
    [b !== 0] it returns [a / b].  In particular [getRatio(0,0) = 1],
    [getRatio(5,0) = +Infinity], [getRatio(0,5) = 0], [getRatio(4,2) = 2]. *)
Theorem getRatio_total :
  (∀ a b : number,
      ((b === zero)%num = true ∧ (a === zero)%num = true ∧ getRatio a b = one) ∨
      ((b === zero)%num = true ∧ (a === zero)%num = false ∧ getRatio a b = Infinity) ∨
      ((b === zero)%num = false ∧ getRatio a b = (a / b)%num)) ∧
  getRatio (of_Z 0) (of_Z 0) = of_Z 1 ∧
  getRatio (of_Z 5) (of_Z 0) = Infinity ∧
  getRatio (of_Z 0) (of_Z 5) = of_Z 0 ∧
  getRatio (of_Z 4) (of_Z 2) = of_Z 2.
Proof.
  split; [|by vm_compute].
  intros a b. unfold getRatio.
  destruct (b === zero)%num; [destruct (a === zero)%num|]; auto.
Qed.

(** ** The order of numbers *)

Lemma SFcompare_swap (a b : number) :
  SFcompare b a = CompOpp <$> SFcompare a b.
Proof.
  destruct a as [[]|[]| |[] m1 e1], b as [[]|[]| |[] m2 e2]; simpl; try reflexivity.
  all: rewrite (Z.compare_antisym e1 e2), !Pos.compare_cont_spec, (Pos.compare_antisym m1 m2).
  all: destruct (e1 ?= e2)%Z; simpl; try reflexivity.
  all: destruct (m1 ?= m2)%positive; reflexivity.
Qed.

Lemma SFcompare_refl (a : number) : is_nan a = false → SFcompare a a = Some Eq.
Proof.
  destruct a as [[]|[]| |[] m e]; simpl; try done.
  all: intros _; rewrite Z.compare_refl, Pos.compare_cont_spec, Pos.compare_refl; done.
Qed.

Lemma SFcompare_nan (a b : number) :
  SFcompare a b = None ↔ is_nan a = true ∨ is_nan b = true.
Proof.
  destruct a as [[]|[]| |[] m1 e1], b as [[]|[]| |[] m2 e2]; simpl;
    (split; [intros ?; (discriminate || auto) | intros [?|?]; (discriminate || reflexivity)]).
Qed.

Lemma number_le_trans (a b c : number) : le a b = true → le b c = true → le a c = true.
Proof.
  unfold le, SFleb.
  destruct a as [[]|[]| |[] m1 e1], b as [[]|[]| |[] m2 e2], c as [[]|[]| |[] m3 e3];
    simpl; try done.
  all: rewrite !Pos.compare_cont_spec.
  all: destruct (Z.compare_spec e1 e2), (Z.compare_spec e2 e3), (Z.compare_spec e1 e3);
    simpl; try done; try lia.
  all: destruct (Pos.compare_spec m1 m2), (Pos.compare_spec m2 m3), (Pos.compare_spec m1 m3);
    simpl; try done; try lia.
Qed.

Lemma number_le_refl (a : number) : is_nan a = false → le a a = true.
Proof. intros H. unfold le, SFleb. by rewrite SFcompare_refl. Qed.

(** Of two numbers that are not [NaN], [Math.min] returns one that is
    below both. *)
Lemma Math_min_spec (a b : number) :
  is_nan a = false → is_nan b = false →
  (Math_min a b = a ∨ Math_min a b = b) ∧
  le (Math_min a b) a = true ∧ le (Math_min a b) b = true.
Proof.
  intros Ha Hb. unfold Math_min. rewrite Ha, Hb. simpl.
  pose proof (SFcompare_swap a b) as Hs.
  pose proof (number_le_refl a Ha) as Ra. pose proof (number_le_refl b Hb) as Rb.
  unfold lt, SFltb, le, SFleb in *.
  destruct (SFcompare a b) as [[]|] eqn:E; simpl in Hs;
    [| | |exfalso; apply SFcompare_nan in E as [?|?]; congruence].
  all: rewrite ?Hs; try destruct (is_neg_zero a); rewrite ?E, ?Hs; auto.
Qed.

(** Of two numbers that are not [NaN], [Math.max] returns one that is
    above both. *)
Lemma Math_max_spec (a b : number) :
  is_nan a = false → is_nan b = false →
  (Math_max a b = a ∨ Math_max a b = b) ∧
  le a (Math_max a b) = true ∧ le b (Math_max a b) = true.
Proof.
  intros Ha Hb. unfold Math_max. rewrite Ha, Hb. simpl.
  pose proof (SFcompare_swap a b) as Hs.
  pose proof (number_le_refl a Ha) as Ra. pose proof (number_le_refl b Hb) as Rb.
  unfold lt, SFltb, le, SFleb in *.
  destruct (SFcompare a b) as [[]|] eqn:E; simpl in Hs;
    [| | |exfalso; apply SFcompare_nan in E as [?|?]; congruence].
  all: rewrite ?Hs; try destruct (is_pos_zero a); rewrite ?E, ?Hs; auto.
Qed.

(** Only [+Infinity] is above [+Infinity]. *)
Lemma Infinity_le (a : number) : le Infinity a = true → a = Infinity.
Proof. by destruct a as [[]|[]| |[] m e]. Qed.

Lemma foldl_Math_min_minimum (rs : list number) (r0 : number) :
  Forall not_nan (r0 :: rs) → is_minimum (foldl Math_min r0 rs) (r0 :: rs).
Proof.
  revert r0. induction rs as [|r rs IH]; intros r0 H.
  - simpl. split; [left|]. intros r ->%list_elem_of_singleton.
    apply number_le_refl. by inversion H.
  - inversion H as [|? ? H0 H']; subst. inversion H' as [|? ? Hr Hrs]; subst.
    destruct (Math_min_spec r0 r H0 Hr) as (Hor & Hl0 & Hlr).
    assert (Hm : not_nan (Math_min r0 r)) by (by destruct Hor as [-> | ->]).
    destruct (IH (Math_min r0 r) (Forall_cons_2 _ _ _ Hm Hrs)) as [Hin Hle].
    simpl. split.
    + apply elem_of_cons in Hin as [-> | Hin].
      * destruct Hor as [-> | ->]; [left | right; left].
      * by do 2 right.
    + assert (Hlm : le (foldl Math_min (Math_min r0 r) rs) (Math_min r0 r) = true)
        by (apply Hle; left).
      intros x [-> | [-> | Hx]%elem_of_cons]%elem_of_cons.
      * by eapply number_le_trans.
      * by eapply number_le_trans.
      * apply Hle. by right.
Qed.

Lemma foldl_Math_max_maximum (rs : list number) (r0 : number) :
  Forall not_nan (r0 :: rs) → is_maximum (foldl Math_max r0 rs) (r0 :: rs).
Proof.
  revert r0. induction rs as [|r rs IH]; intros r0 H.
  - simpl. split; [left|]. intros r ->%list_elem_of_singleton.
    apply number_le_refl. by inversion H.
  - inversion H as [|? ? H0 H']; subst. inversion H' as [|? ? Hr Hrs]; subst.
    destruct (Math_max_spec r0 r H0 Hr) as (Hor & Hl0 & Hlr).
    assert (Hm : not_nan (Math_max r0 r)) by (by destruct Hor as [-> | ->]).
    destruct (IH (Math_max r0 r) (Forall_cons_2 _ _ _ Hm Hrs)) as [Hin Hle].
    simpl. split.
    + apply elem_of_cons in Hin as [-> | Hin].
      * destruct Hor as [-> | ->]; [left | right; left].
      * by do 2 right.
    + assert (Hlm : le (Math_max r0 r) (foldl Math_max (Math_max r0 r) rs) = true)
        by (apply Hle; left).
      intros x [-> | [-> | Hx]%elem_of_cons]%elem_of_cons.
      * by eapply number_le_trans.
      * by eapply number_le_trans.
      * apply Hle. by right.
Qed.

(** ** Rounding never produces [NaN] *)

(** The mantissa stays non-negative through the shifts and the rounding of
    [binary_round_aux], so its result is a zero, a finite number or an
    infinity. *)

Lemma shr_1_nonneg mrs : (0 ≤ shr_m mrs)%Z → (0 ≤ shr_m (shr_1 mrs))%Z.
Proof. destruct mrs as [[|[p|p|]|p] r s]; simpl; lia. Qed.

Lemma iter_pos_shr_1_nonneg p mrs :
  (0 ≤ shr_m mrs)%Z → (0 ≤ shr_m (SpecFloat.iter_pos shr_1 p mrs))%Z.
Proof.
  revert mrs. induction p as [p IH|p IH|]; intros mrs H; simpl.
  - apply IH, IH. by apply shr_1_nonneg.
  - by apply IH, IH.
  - by apply shr_1_nonneg.
Qed.

Lemma shr_fexp_nonneg m e l :
  (0 ≤ m)%Z → (0 ≤ shr_m (shr_fexp prec emax m e l).1)%Z.
Proof.
  intros H. unfold shr_fexp, shr.
  assert (0 ≤ shr_m (shr_record_of_loc m l))%Z by (by destruct l as [|[]]).
  destruct (_ - e)%Z; simpl; [done| |done].
  by apply iter_pos_shr_1_nonneg.
Qed.

Lemma round_nearest_even_nonneg m l :
  (0 ≤ m)%Z → (0 ≤ round_nearest_even m l)%Z.
Proof.
  intros H. destruct l as [|[]]; simpl; [done| |done|lia].
  destruct (Z.even m); lia.
Qed.

Lemma binary_round_aux_not_nan s m e l :
  (0 ≤ m)%Z → is_nan (binary_round_aux prec emax s m e l) = false.
Proof.
  intros H. unfold binary_round_aux.
  pose proof (shr_fexp_nonneg m e l H) as H1.
  destruct (shr_fexp prec emax m e l) as [mrs' e']. simpl in H1.
  pose proof (shr_fexp_nonneg _ e' loc_Exact
                (round_nearest_even_nonneg _ (loc_of_shr_record mrs') H1)) as H2.
  destruct (shr_fexp prec emax _ e' loc_Exact) as [mrs'' e'']. simpl in H2.
  destruct (shr_m mrs''); [done| |lia].
  by destruct (_ <=? _)%Z.
Qed.

Lemma div_finite_not_nan (a b : number) :
  is_finite a = true → is_finite b = true → strict_eq b zero = false →
  is_nan (a / b)%num = false.
Proof.
  destruct a as [sa| | |sa ma ea], b as [sb| | |sb mb eb]; try done.
  intros _ _ _. unfold div, SFdiv, SFdiv_core_binary.
  match goal with
  | |- context [Z.div_eucl ?x ?y] =>
      assert (0 ≤ Z.div x y)%Z as Hq;
        [|unfold Z.div in Hq; destruct (Z.div_eucl x y) as [q r]]
  end.
  - apply Z.div_pos; [|lia].
    destruct (_ - _ - _)%Z; [lia| |lia]. apply Z.shiftl_nonneg. lia.
  - by apply binary_round_aux_not_nan.
Qed.

(** The ratio of two finite numbers is not [NaN]. *)
Lemma getRatio_finite (a b : number) :
  is_finite a = true → is_finite b = true → not_nan (getRatio a b).
Proof.
  intros Ha Hb. unfold getRatio, not_nan.
  destruct (strict_eq b zero) eqn:E.
  - by destruct (strict_eq a zero).
  - by apply div_finite_not_nan.
Qed.

(** ** [createMetrics] *)

Lemma findIndex_Some {A} (p : A → bool) (l : list A) (j : nat) :
  findIndex p l = Some j →
  ∃ x, l !! j = Some x ∧ p x = true ∧
       ∀ k y, (k < j)%nat → l !! k = Some y → p y = false.
Proof.
  revert j. induction l as [|x l IH]; intros j; simpl; [done|].
  destruct (p x) eqn:Hx.
  - intros [= <-]. exists x. repeat split; [done|]. intros k y Hk. lia.
  - destruct (findIndex p l) as [j'|]; simpl; [|done].
    intros [= <-]. destruct (IH j' eq_refl) as (y & Hy & Hpy & Hfirst).
    exists y. repeat split; [done..|].
    intros [|k] z Hk; simpl; [by intros [= <-]|].
    apply Hfirst. lia.
Qed.

Lemma entries_from_fst {A} (n : nat) (l : list A) :
  (entries_from n l).*1 = seq n (length l).
Proof.
  revert n. induction l as [|x l IH]; intros n; simpl; [done|].
  by rewrite IH.
Qed.

Lemma entries_from_elem_of {A} (n i : nat) (x : A) (l : list A) :
  (i, x) ∈ entries_from n l → (n ≤ i)%nat ∧ l !! (i - n)%nat = Some x.
Proof.
  revert n. induction l as [|y l IH]; intros n; simpl.
  - by intros ?%elem_of_nil.
  - intros [[= -> ->] | H]%elem_of_cons.
    + by rewrite Nat.sub_diag.
    + destruct (IH _ H) as [Hle Hl]. split; [lia|].
      replace (i - n)%nat with (S (i - S n)) by lia. done.
Qed.

Lemma entries_from_lookup {A} (n i : nat) (x : A) (l : list A) :
  l !! i = Some x → ((n + i)%nat, x) ∈ entries_from n l.
Proof.
  revert n i. induction l as [|y l IH]; intros n i; simpl; [done|].
  destruct i as [|i]; simpl.
  - intros [= ->]. rewrite Nat.add_0_r. left.
  - intros H. right. replace (n + S i)%nat with (S n + i)%nat by lia.
    by apply IH.
Qed.

Section MetricCatalogProperties.

Variable areFieldsComparable : Field → Field → bool.

(** When the inner loop found an index for every batch, each index is that
    of the first comparable field of its batch. *)
Lemma foundIndices_full field others :
  length (foundIndices areFieldsComparable field others) = length others →
  ∀ k b, others !! k = Some b →
    ∃ j, foundIndices areFieldsComparable field others !! k = Some j ∧
         findIndex (areFieldsComparable field) (fields b) = Some j.
Proof.
  induction others as [|b0 others IH]; simpl; intros Hlen k b Hk; [done|].
  destruct (findIndex _ (fields b0)) as [j0|] eqn:E; simpl in *; [|lia].
  destruct k as [|k]; simpl in *.
  - injection Hk as <-. by exists j0.
  - apply IH; [lia|done].
Qed.

(** The inner loop never raises.  It leaves the found indices behind the
    index it started from, and its flag records whether the fields seen so
    far are all numeric; with an index for every batch, the flag is set
    exactly when every batch has a numeric first comparable field. *)
Lemma alignOthers_spec field others acc isNum :
  ∃ isNum',
    alignOthers areFieldsComparable field others acc isNum
    = Normal (acc ++ foundIndices areFieldsComparable field others, isNum') ∧
    (length (foundIndices areFieldsComparable field others) =? length others)%nat
      && isNum'
    = isNum && forallb (hasNumericMatch areFieldsComparable field) others.
Proof.
  revert acc isNum. induction others as [|b others IH]; intros acc isNum; simpl.
  - exists isNum. by rewrite app_nil_r, andb_true_r.
  - unfold hasNumericMatch, firstComparable.
    destruct (findIndex _ (fields b)) as [j|] eqn:E; simpl.
    + destruct (findIndex_Some _ _ _ E) as (f & Hf & _). rewrite Hf.
      destruct isNum; simpl.
      * destruct (IH (acc ++ [j]) (isNumber f)) as (n & -> & Hn).
        exists n. by rewrite <- app_assoc.
      * destruct (IH (acc ++ [j]) false) as (n & -> & Hn).
        exists n. rewrite <- app_assoc. split; [done|].
        by rewrite Hn.
    + exists isNum. by rewrite app_nil_r, andb_false_r.
Qed.

(** An iteration of the outer loop makes a metric for an eligible field
    and changes nothing for any other field. *)
Lemma visitField_spec batches fieldIndex field σ metrics :
  batches ≠ [] →
  visitField areFieldsComparable batches fieldIndex field σ metrics
  = if eligible areFieldsComparable batches field
    then (σ ++ [metricFor areFieldsComparable batches (fieldIndex, field)],
          Normal (metrics ++ [length σ]))
    else (σ, Normal metrics).
Proof.
  intros Hne. unfold visitField, eligible.
  destruct (alignOthers_spec field (drop 1 batches) [fieldIndex] (isNumber field))
    as (n & -> & Hn).
  rewrite <- Hn.
  replace (length ([fieldIndex] ++ foundIndices areFieldsComparable field
                     (drop 1 batches)) =? length batches)%nat
    with (length (foundIndices areFieldsComparable field (drop 1 batches))
            =? length (drop 1 batches))%nat.
  2:{ rewrite length_drop. simpl. destruct batches; [done|]. simpl.
      by rewrite Nat.sub_0_r. }
  destruct (Nat.eqb _ _); simpl; [|done].
  destruct n; simpl; [|done].
  destruct (isDimension (id field)); simpl; [done|].
  by destruct (isSetting (id field)).
Qed.

Lemma visitFields_spec batches es σ metrics :
  batches ≠ [] →
  let ms := metricFor areFieldsComparable batches
              <$> filter (λ e, eligible areFieldsComparable batches e.2 = true) es in
  visitFields areFieldsComparable batches es σ metrics
  = (σ ++ ms, Normal (metrics ++ seq (length σ) (length ms))).
Proof.
  intros Hne. revert σ metrics.
  induction es as [|[i field] es IH]; intros σ metrics; simpl.
  - by rewrite !app_nil_r.
  - rewrite visitField_spec by done. rewrite filter_cons. simpl.
    destruct (eligible areFieldsComparable batches field) eqn:E.
    + rewrite decide_True by done. rewrite IH. simpl.
      rewrite <- !app_assoc, length_app. simpl. by rewrite Nat.add_1_r.
    + rewrite decide_False by done. apply IH.
Qed.

Lemma eligible_spec batches field :
  eligible areFieldsComparable batches field = true ↔
  isNumber field = true ∧
  (id field ∉ [WIDTH; HEIGHT; EFFORT; QUALITY]) ∧
  ∀ b, b ∈ drop 1 batches →
    ∃ f, firstComparable areFieldsComparable field b = Some f ∧
         isNumber f = true.
Proof.
  unfold eligible, isDimension, isSetting, hasNumericMatch.
  rewrite !andb_true_iff, !negb_true_iff, !orb_false_iff,
    !bool_decide_eq_false, forallb_forall, !not_elem_of_cons.
  split.
  - intros [[[Hnum Hall] [? ?]] [? ?]]. split; [done|]. split.
    { repeat split; try done. apply not_elem_of_nil. }
    intros b Hb. specialize (Hall b). rewrite <- list_elem_of_In in Hall.
    specialize (Hall Hb).
    destruct (firstComparable areFieldsComparable field b) as [f|]; [|done].
    by exists f.
  - intros (Hnum & (? & ? & ? & ? & _) & Hall). repeat split; try done.
    intros b Hb. apply list_elem_of_In in Hb.
    by destruct (Hall b Hb) as (f & -> & ?).
Qed.

(** C3, as the code has it. [createMetrics] never raises; it makes new,
    disabled metrics, at most one per field of the first batch and in the
    order of these fields.  A metric is made for a field of the first batch
    exactly when the field is numeric, its id is none of WIDTH, HEIGHT,
    EFFORT and QUALITY, and every other batch has at least one comparable
    field, the first of which is numeric.  The metric holds one index per
    batch: that of the field, then that of the first comparable field of
    every other batch.  So no metric is made for a field that has no
    comparable field in some other batch. *)
Theorem createMetrics_emits (batches : list Batch) (σ : store) :
  ∃ ms,
    createMetrics areFieldsComparable batches σ
      = (σ ++ ms, Normal (seq (length σ) (length ms))) ∧
    (batches = [] → ms = []) ∧
    ∀ first, head batches = Some first →
      (∃ positions,
          sublist positions (seq 0 (length (fields first))) ∧
          Forall2 (λ i m, head (fieldIndices m) = Some i) positions ms) ∧
      (∀ i field, fields first !! i = Some field →
         (∃ m, m ∈ ms ∧ head (fieldIndices m) = Some i) ↔
         (isNumber field = true ∧
          (id field ∉ [WIDTH; HEIGHT; EFFORT; QUALITY]) ∧
          ∀ b, b ∈ drop 1 batches →
            ∃ f, firstComparable areFieldsComparable field b = Some f ∧
                 isNumber f = true)) ∧
      (∀ m, m ∈ ms →
         ∃ i field,
           head (fieldIndices m) = Some i ∧ fields first !! i = Some field ∧
           enabled m = false ∧
           length (fieldIndices m) = length batches ∧
           ∀ k b, batches !! S k = Some b →
             ∃ j f, fieldIndices m !! S k = Some j ∧
                    findIndex (areFieldsComparable field) (fields b) = Some j ∧
                    fields b !! j = Some f ∧
                    areFieldsComparable field f = true) ∧
      (∀ i field b,
         fields first !! i = Some field → b ∈ drop 1 batches →
         (∀ f, f ∈ fields b → areFieldsComparable field f = false) →
         ∀ m, m ∈ ms → head (fieldIndices m) ≠ Some i).
Proof.
  destruct batches as [|first others] eqn:Hb.
  { exists []. simpl. rewrite app_nil_r. split; [done|]. split; [done|].
    by intros first. }
  rewrite <- Hb.
  assert (Hne : batches ≠ []) by (by rewrite Hb).
  set (kept := filter (λ e, eligible areFieldsComparable batches e.2 = true)
                 (entries (fields first))).
  exists (metricFor areFieldsComparable batches <$> kept).
  split.
  { rewrite Hb at 1. simpl. rewrite <- Hb.
    by rewrite (visitFields_spec batches (entries (fields first)) σ [] Hne). }
  split; [by rewrite Hb|].
  intros first' Hfirst. rewrite Hb in Hfirst. injection Hfirst as <-.
  assert (Hkept : ∀ i field,
    (i, field) ∈ kept ↔
    fields first !! i = Some field ∧
    eligible areFieldsComparable batches field = true).
  { intros i field. unfold kept. rewrite list_elem_of_filter. simpl. split.
    - intros [He Hin]. apply entries_from_elem_of in Hin as [_ Hin].
      by rewrite Nat.sub_0_r in Hin.
    - intros [Hi He]. split; [done|]. by apply (entries_from_lookup 0). }
  assert (Hm : ∀ m, m ∈ metricFor areFieldsComparable batches <$> kept →
    ∃ i field, m = metricFor areFieldsComparable batches (i, field) ∧
               fields first !! i = Some field ∧
               eligible areFieldsComparable batches field = true).
  { intros m ([i field] & -> & Hin)%list_elem_of_fmap.
    exists i, field. split; [done|]. by apply Hkept. }
  assert (Hfull : ∀ field,
    eligible areFieldsComparable batches field = true →
    length (foundIndices areFieldsComparable field (drop 1 batches))
    = length (drop 1 batches)).
  { intros field He.
    destruct (alignOthers_spec field (drop 1 batches) [] (isNumber field))
      as (n & _ & Hn).
    unfold eligible in He. rewrite !andb_true_iff in He.
    destruct He as [[[Hnum Hmatch] _] _]. rewrite Hnum, Hmatch in Hn.
    apply andb_true_iff in Hn as [Hn _]. by apply Nat.eqb_eq in Hn. }
  assert (Hall : ∀ m, m ∈ metricFor areFieldsComparable batches <$> kept →
    ∃ i field,
      head (fieldIndices m) = Some i ∧ fields first !! i = Some field ∧
      enabled m = false ∧
      length (fieldIndices m) = length batches ∧
      ∀ k b, batches !! S k = Some b →
        ∃ j f, fieldIndices m !! S k = Some j ∧
               findIndex (areFieldsComparable field) (fields b) = Some j ∧
               fields b !! j = Some f ∧
               areFieldsComparable field f = true).
  { intros m Hin. destruct (Hm m Hin) as (i & field & -> & Hi & He).
    exists i, field. simpl. do 3 (split; [done|]).
    split; [rewrite (Hfull field He), length_drop, Hb; simpl; lia|].
    intros k b Hk.
    destruct (foundIndices_full field (drop 1 batches) (Hfull field He) k b)
      as (j & Hj & Hfind).
    { by rewrite lookup_drop. }
    destruct (findIndex_Some _ _ _ Hfind) as (f & Hf & Hcmp & _).
    by exists j, f. }
  split; [|split; [|split; [exact Hall|]]].
  - exists (kept.*1). split.
    + rewrite <- (entries_from_fst 0 (fields first)).
      apply fmap_sublist, sublist_filter.
    + apply Forall2_fmap_l, Forall2_fmap_r, Forall_Forall2_diag.
      by apply Forall_forall.
  - intros i field Hi. rewrite <- eligible_spec. split.
    + intros (m & Hin & Hhead).
      destruct (Hm m Hin) as (i' & field' & -> & Hi' & He).
      simpl in Hhead. injection Hhead as ->. congruence.
    + intros He. exists (metricFor areFieldsComparable batches (i, field)).
      split; [|done]. apply list_elem_of_fmap. exists (i, field).
      split; [done|]. by apply Hkept.
  - intros i field b Hi Hin Hnone m Hmin Hhead.
    destruct (Hall m Hmin) as (i' & field' & Hhead' & Hi' & _ & _ & Hothers).
    assert (i' = i) as -> by congruence. assert (field' = field) as -> by congruence.
    apply list_elem_of_lookup in Hin as [k Hk]. rewrite lookup_drop in Hk.
    destruct (Hothers k b Hk) as (j & f & _ & _ & Hf & Hcmp).
    rewrite Hnone in Hcmp; [done|]. by eapply list_elem_of_lookup_2.
Qed.

End MetricCatalogProperties.

(** C3, as stated, does not hold: a metric is made although a batch has two
    comparable fields. *)
Lemma createMetrics_not_exactly_one :
  ¬ (∀ batches σ σ' ls l m first i field b,
       createMetrics sameIdAndKind batches σ = (σ', Normal ls) →
       l ∈ ls → σ' !! l = Some m →
       head batches = Some first → head (fieldIndices m) = Some i →
       fields first !! i = Some field →
       b ∈ batches →
       comparableCount sameIdAndKind field b = 1%nat).
Proof.
  intros H.
  set (size := mkField ENCODED_SIZE true zero zero []).
  set (b1 := mkBatch 0 [size] []).
  set (b2 := mkBatch 1 [size; size] []).
  assert (comparableCount sameIdAndKind size b2 = 1%nat) as Hcount.
  { apply (H [b1; b2] [] [new_FieldMetric [0; 0]%nat] [0%nat] 0%nat
             (new_FieldMetric [0; 0]%nat) b1 0%nat size b2);
      [reflexivity | by left | reflexivity.. | by right; left]. }
  discriminate Hcount.
Qed.

(** The example of the design document: of [width, encoded-size] and
    [encoded-size, width, quality] one metric is made, for encoded-size. *)
Example createMetrics_example :
  let width := mkField WIDTH true zero zero [] in
  let size := mkField ENCODED_SIZE true zero zero [] in
  let quality := mkField QUALITY true zero zero [] in
  createMetrics sameIdAndKind
    [mkBatch 0 [width; size] []; mkBatch 1 [size; width; quality] []] []
  = ([new_FieldMetric [1; 0]%nat], Normal [0%nat]).
Proof. reflexivity. Qed.

Lemma enableDefaultMetrics_store fb metrics σ :
  let σ' := (enableDefaultMetrics fb metrics σ).1 in
  length σ' = length σ ∧
  ∀ l m, σ !! l = Some m →
    ∃ m', σ' !! l = Some m' ∧ fieldIndices m' = fieldIndices m ∧
          (enabled m' = enabled m ∨
           (enabled m' = true ∧ l ∈ metrics ∧
            ∃ field, firstField fb m = Some field ∧
                     isDefaultMetricId (id field) = true)).
Proof.
  revert σ. induction metrics as [|metric rest IH]; intros σ; simpl.
  { split; [done|]. intros l m Hl. exists m. auto. }
  destruct (σ !! metric) as [m0|] eqn:H0; simpl;
    [|split; [done|]; intros l m Hl; exists m; auto].
  destruct (firstField fb m0) as [field|] eqn:Hf; simpl;
    [|split; [done|]; intros l m Hl; exists m; auto].
  destruct (isDefaultMetricId (id field)) eqn:Hd.
  - destruct (IH (<[metric := set_enabled m0]> σ)) as [Hlen Hframe].
    split; [by rewrite Hlen, length_insert|].
    intros l m Hl. destruct (decide (l = metric)) as [->|Hne].
    + assert (m = m0) as -> by congruence.
      destruct (Hframe metric (set_enabled m0)) as (m' & Hm' & Hfi & Hen).
      { apply list_lookup_insert_eq. by eapply lookup_lt_Some. }
      exists m'. split; [done|]. split; [done|]. right.
      split; [|split; [left|by exists field]].
      destruct Hen as [-> | [-> _]]; done.
    + destruct (Hframe l m) as (m' & Hm' & Hfi & Hen).
      { by rewrite list_lookup_insert_ne. }
      exists m'. split; [done|]. split; [done|].
      destruct Hen as [? | (? & ? & ?)]; [by left|].
      right. split; [done|]. split; [by right|done].
  - destruct (IH σ) as [Hlen Hframe]. split; [done|].
    intros l m Hl. destruct (Hframe l m Hl) as (m' & Hm' & Hfi & Hen).
    exists m'. split; [done|]. split; [done|].
    destruct Hen as [? | (? & ? & ?)]; [by left|].
    right. split; [done|]. split; [by right|done].
Qed.

Lemma metricsOk_insert fb σ metrics l m :
  σ !! l = Some m → metricsOk fb σ metrics →
  metricsOk fb (<[l := set_enabled m]> σ) metrics.
Proof.
  intros Hl Hok l' Hl'. destruct (Hok l' Hl') as (m' & field & Hm' & Hf).
  destruct (decide (l' = l)) as [->|Hne].
  - exists (set_enabled m), field. split.
    + apply list_lookup_insert_eq. by eapply lookup_lt_Some.
    + by assert (m' = m) as -> by congruence.
  - exists m', field. by rewrite list_lookup_insert_ne.
Qed.

Lemma enableDefaultMetrics_returns fb metrics σ :
  metricsOk fb σ metrics →
  (enableDefaultMetrics fb metrics σ).2 = Normal () ∧
  ∀ l m field,
    l ∈ metrics → σ !! l = Some m → firstField fb m = Some field →
    isDefaultMetricId (id field) = true →
    ∃ m', (enableDefaultMetrics fb metrics σ).1 !! l = Some m' ∧
          enabled m' = true.
Proof.
  revert σ. induction metrics as [|metric rest IH]; intros σ Hok; simpl.
  { split; [done|]. by intros l m field ?%elem_of_nil. }
  destruct (Hok metric) as (m0 & field0 & H0 & Hf0); [left|].
  rewrite H0, Hf0.
  assert (Hrest : metricsOk fb σ rest) by (intros l Hl; apply Hok; by right).
  destruct (isDefaultMetricId (id field0)) eqn:Hd.
  - destruct (IH (<[metric := set_enabled m0]> σ)) as [Hret Hen];
      [by apply metricsOk_insert|].
    split; [done|]. intros l m field Hl Hm Hf Hdef.
    apply elem_of_cons in Hl as [-> | Hl].
    + destruct (enableDefaultMetrics_store fb rest (<[metric := set_enabled m0]> σ))
        as [_ Hframe].
      destruct (Hframe metric (set_enabled m0)) as (m' & Hm' & _ & Hen').
      { apply list_lookup_insert_eq. by eapply lookup_lt_Some. }
      exists m'. split; [done|]. by destruct Hen' as [-> | [-> _]].
    + destruct (decide (l = metric)) as [->|Hne].
      * apply (Hen metric (set_enabled m0) field0); [done| |done..].
        apply list_lookup_insert_eq. by eapply lookup_lt_Some.
      * apply (Hen l m field); [done| |done..]. by rewrite list_lookup_insert_ne.
  - destruct (IH σ Hrest) as [Hret Hen]. split; [done|].
    intros l m field Hl Hm Hf Hdef.
    apply elem_of_cons in Hl as [-> | Hl]; [|by eapply Hen].
    congruence.
Qed.

Lemma isDefaultMetricId_elem_of (i : FieldId) :
  isDefaultMetricId i = true ↔
  i ∈ [ENCODED_SIZE; ENCODING_DURATION; DECODING_DURATION].
Proof.
  unfold isDefaultMetricId. rewrite !orb_true_iff, !bool_decide_eq_true.
  rewrite !elem_of_cons, elem_of_nil. tauto.
Qed.

(** C10. [enableDefaultMetrics] changes nothing but [enabled] flags, and
    these only from [false] to [true] and only for metrics of the list
    whose field in the first batch has the id ENCODED_SIZE,
    ENCODING_DURATION or DECODING_DURATION: the store keeps its objects,
    every object keeps its [fieldIndices], and an enabled metric stays
    enabled.  The batch is only read.  When every metric of the list names
    a field of the first batch, the call returns and those metrics are
    enabled afterwards. *)
Theorem enableDefaultMetrics_frame (firstBatch : Batch) (metrics : list loc)
    (σ : store) :
  let σ' := (enableDefaultMetrics firstBatch metrics σ).1 in
  length σ' = length σ ∧
  (∀ l m, σ !! l = Some m →
     ∃ m', σ' !! l = Some m' ∧
           fieldIndices m' = fieldIndices m ∧
           (enabled m = true → enabled m' = true) ∧
           (enabled m' ≠ enabled m →
              enabled m = false ∧ enabled m' = true ∧ l ∈ metrics ∧
              ∃ field, firstField firstBatch m = Some field ∧
                       id field ∈ [ENCODED_SIZE; ENCODING_DURATION;
                                   DECODING_DURATION])) ∧
  (metricsOk firstBatch σ metrics →
     (enableDefaultMetrics firstBatch metrics σ).2 = Normal () ∧
     ∀ l m field,
       l ∈ metrics → σ !! l = Some m →
       firstField firstBatch m = Some field →
       id field ∈ [ENCODED_SIZE; ENCODING_DURATION; DECODING_DURATION] →
       ∃ m', σ' !! l = Some m' ∧ enabled m' = true).
Proof.
  intros σ'. destruct (enableDefaultMetrics_store firstBatch metrics σ)
    as [Hlen Hframe].
  split; [done|]. split.
  - intros l m Hl. destruct (Hframe l m Hl) as (m' & Hm' & Hfi & Hen).
    exists m'. split; [done|]. split; [done|]. split.
    + intros Ht. destruct Hen as [-> | [-> _]]; done.
    + intros Hne. destruct Hen as [? | (Ht & Hin & field & Hf & Hd)]; [done|].
      split; [|split; [done|split; [done|]]].
      * destruct (enabled m); [congruence|done].
      * exists field. split; [done|]. by apply isDefaultMetricId_elem_of.
  - intros Hok. destruct (enableDefaultMetrics_returns firstBatch metrics σ Hok)
      as [Hret Hen].
    split; [done|]. intros l m field Hl Hm Hf Hd.
    apply (Hen l m field); [done..|]. by apply isDefaultMetricId_elem_of.
Qed.

(** ** [selectPlotMetrics] *)

Lemma find_c_pure {A} (p : A → completion bool) (q : A → bool) (l : list A) :
  (∀ x, x ∈ l → p x = Normal (q x)) →
  find_c p l = Normal (List.find q l).
Proof.
  induction l as [|x l IH]; intros H; simpl; [done|].
  rewrite (H x); [|left]. simpl. destruct (q x); [done|].
  apply IH. intros y Hy. apply H. by right.
Qed.

Lemma find_elem_of {A} (q : A → bool) (l : list A) (x : A) :
  List.find q l = Some x → x ∈ l ∧ q x = true.
Proof.
  induction l as [|y l IH]; simpl; [done|].
  destruct (q y) eqn:Hy.
  - intros [= <-]. split; [left|done].
  - intros H. destruct (IH H). split; [by right|done].
Qed.

Lemma find_none_cons {A} (q : A → bool) (l : list A) :
  List.find q l = None → ∀ x, x ∈ l → q x = false.
Proof.
  induction l as [|y l IH]; simpl; [by intros _ x ?%elem_of_nil|].
  destruct (q y) eqn:Hy; [done|].
  intros H x [-> | Hx]%elem_of_cons; [done|by apply IH].
Qed.

Lemma find_ext {A} (q1 q2 : A → bool) (l : list A) :
  (∀ x, q1 x = q2 x) → List.find q1 l = List.find q2 l.
Proof.
  intros H. induction l as [|y l IH]; simpl; [done|].
  by rewrite H, IH.
Qed.

Section SelectPlotMetricsProperties.

Variable σ : store.
Variable firstBatch : Batch.
Variable metrics : list loc.
Hypothesis Hok : plotInputOk firstBatch σ metrics.

Lemma enabledWithId_pure target l :
  l ∈ metrics →
  enabledWithId σ firstBatch target l
  = Normal (enabledWithIdAt σ firstBatch target l).
Proof.
  intros Hl. destruct (Hok l Hl) as (m & Hm & Hfield).
  unfold enabledWithId, enabledWithIdAt, enabledAt, fieldIdAt, metricToFieldId.
  rewrite Hm. simpl. destruct (enabled m); [|done].
  destruct Hfield as [field Hf]; [done|]. rewrite Hf. simpl.
  f_equal. apply bool_decide_ext. split; [by intros ->|by intros [= ->]].
Qed.

Lemma isEnabled_pure l :
  l ∈ metrics → isEnabled σ l = Normal (enabledAt σ l).
Proof.
  intros Hl. destruct (Hok l Hl) as (m & Hm & _).
  unfold isEnabled, enabledAt. by rewrite Hm.
Qed.

Lemma enabledAndNot_pure xMetric l :
  l ∈ metrics →
  enabledAndNot σ xMetric l
  = Normal (enabledAt σ l && bool_decide (Some l ≠ xMetric)).
Proof.
  intros Hl. destruct (Hok l Hl) as (m & Hm & _).
  unfold enabledAndNot, enabledAt. by rewrite Hm.
Qed.

(** On well-formed input [selectPlotMetrics] returns, and what it returns
    is the selection by precedence. *)
Lemma selectPlotMetrics_run :
  selectPlotMetrics σ firstBatch metrics
  = Normal (selectPlotMetrics_by_precedence σ firstBatch metrics).
Proof.
  unfold selectPlotMetrics, selectPlotMetrics_by_precedence.
  rewrite !(find_c_pure _ _ _ (λ l, enabledWithId_pure _ l)). simpl.
  assert (Hrest : selectEnabledOrFirst σ metrics =
    Normal match List.find (enabledAt σ) metrics with
           | Some x =>
               (Some x,
                Some (default x
                        (List.find (λ l, enabledAt σ l && bool_decide (l ≠ x))
                           metrics)))
           | None =>
               match metrics with
               | first :: _ => (Some first, Some first)
               | [] => (None, None)
               end
           end).
  { unfold selectEnabledOrFirst.
    rewrite (find_c_pure _ _ _ isEnabled_pure). simpl.
    rewrite (find_c_pure _ _ _ (λ l, enabledAndNot_pure _ l)). simpl.
    destruct (List.find (enabledAt σ) metrics) as [x|].
    - do 4 f_equal. apply find_ext. intros l. f_equal.
      apply bool_decide_ext. split; [congruence|]. by intros H [= ->].
    - by destruct metrics. }
  destruct (List.find (enabledWithIdAt σ firstBatch ENCODED_SIZE) metrics);
  destruct (List.find (enabledWithIdAt σ firstBatch ENCODING_DURATION) metrics);
    simpl; try done;
    rewrite ?(find_c_pure _ _ _ (λ l, enabledWithId_pure _ l)); simpl;
  destruct (List.find (enabledWithIdAt σ firstBatch DECODING_DURATION) metrics);
    done.
Qed.

End SelectPlotMetricsProperties.

Lemma find_enabledAt_none σ firstBatch target metrics :
  List.find (enabledAt σ) metrics = None →
  List.find (enabledWithIdAt σ firstBatch target) metrics = None.
Proof.
  intros Hnone.
  destruct (List.find (enabledWithIdAt σ firstBatch target) metrics) as [x|] eqn:E;
    [|done].
  apply find_elem_of in E as [Hx Hq].
  apply andb_true_iff in Hq as [Hen _].
  by rewrite (find_none_cons _ _ Hnone x Hx) in Hen.
Qed.

(** C6. [selectPlotMetrics] follows the four steps of its precedence:
    (1) the first enabled encoded-size metric as x with the first enabled
    encoding-duration metric, else the first enabled decoding-duration
    metric, as y, when both exist; (2) else the first enabled metric as x
    and the first enabled metric other than x as y, or x again when there
    is none; (3) else, when no metric is enabled, the first metric for both
    axes; (4) no selection when there is no metric. *)
Theorem selectPlotMetrics_precedence (σ : store) (firstBatch : Batch)
    (metrics : list loc) :
  plotInputOk firstBatch σ metrics →
  let size := List.find (enabledWithIdAt σ firstBatch ENCODED_SIZE) metrics in
  let encoding :=
    List.find (enabledWithIdAt σ firstBatch ENCODING_DURATION) metrics in
  let decoding :=
    List.find (enabledWithIdAt σ firstBatch DECODING_DURATION) metrics in
  let firstEnabled := List.find (enabledAt σ) metrics in
  (∀ x y,
     size = Some x →
     encoding = Some y ∨ (encoding = None ∧ decoding = Some y) →
     selectPlotMetrics σ firstBatch metrics = Normal (Some x, Some y)) ∧
  (∀ x,
     size = None ∨ (encoding = None ∧ decoding = None) →
     firstEnabled = Some x →
     selectPlotMetrics σ firstBatch metrics
     = Normal (Some x,
               Some (default x
                       (List.find (λ l, enabledAt σ l && bool_decide (l ≠ x))
                          metrics)))) ∧
  (∀ first rest,
     firstEnabled = None → metrics = first :: rest →
     selectPlotMetrics σ firstBatch metrics = Normal (Some first, Some first)) ∧
  (metrics = [] →
     selectPlotMetrics σ firstBatch metrics = Normal (None, None)).
Proof.
  intros Hok size encoding decoding firstEnabled.
  rewrite (selectPlotMetrics_run σ firstBatch metrics Hok).
  unfold selectPlotMetrics_by_precedence.
  fold size encoding decoding firstEnabled.
  repeat split.
  - intros x y -> [-> | [-> ->]]; done.
  - intros x [-> | [-> ->]] ->; [done|]. by destruct size.
  - intros first rest Hnone ->.
    pose proof (find_enabledAt_none σ firstBatch ENCODED_SIZE _ Hnone) as Hsize.
    fold size in Hsize. by rewrite Hsize, Hnone.
  - intros ->. done.
Qed.

(** C9. The two components that [selectPlotMetrics] returns are both
    defined or both undefined, and they are undefined exactly when the
    list of metrics is empty. *)
Theorem selectPlotMetrics_both_or_neither (σ : store) (firstBatch : Batch)
    (metrics : list loc) :
  plotInputOk firstBatch σ metrics →
  ∃ x y,
    selectPlotMetrics σ firstBatch metrics = Normal (x, y) ∧
    ((is_Some x ∧ is_Some y) ∨ (x = None ∧ y = None)) ∧
    ((x = None ∧ y = None) ↔ metrics = []).
Proof.
  intros Hok. rewrite (selectPlotMetrics_run σ firstBatch metrics Hok).
  unfold selectPlotMetrics_by_precedence.
  destruct metrics as [|first rest].
  - exists None, None. simpl. split; [done|]. split; [by right|done].
  - repeat match goal with
           | |- context [match ?e with _ => _ end] => destruct e
           end;
      (eexists _, _; split; [reflexivity|]; split;
         [left; split; eauto | split; [by intros [? ?] | done]]).
Qed.

Lemma selectPlotMetrics_precedence_witness :
  selectPlotMetrics plotStore exampleLeft [0%nat; 1%nat]
  = Normal (Some 1%nat, Some 0%nat).
Proof.
  assert (Hok : plotInputOk exampleLeft plotStore [0%nat; 1%nat]).
  { intros l Hl. apply list_elem_of_In in Hl. simpl in Hl.
    destruct Hl as [<- | [<- | []]]; eexists; (split; [reflexivity|]);
      intros _; by eexists. }
  destruct (selectPlotMetrics_precedence plotStore exampleLeft
              [0%nat; 1%nat] Hok) as (Hfirst & _).
  apply Hfirst; [reflexivity | left; reflexivity].
Defined.

Lemma selectPlotMetrics_both_or_neither_witness :
  ∃ x y,
    selectPlotMetrics exampleStore exampleLeft [1%nat; 0%nat] = Normal (x, y) ∧
    ((is_Some x ∧ is_Some y) ∨ (x = None ∧ y = None)) ∧
    ((x = None ∧ y = None) ↔ [1%nat; 0%nat] = []).
Proof.
  apply (selectPlotMetrics_both_or_neither exampleStore exampleLeft
           [1%nat; 0%nat]).
  intros l Hl. apply list_elem_of_In in Hl. simpl in Hl.
  destruct Hl as [<- | [<- | []]]; eexists; (split; [reflexivity|]);
    intros _; by eexists.
Defined.

(** ** [computeStats] *)

Section ComputeStatsProperties.

Context `{GM : GeometricMeanOps}.
Variables leftBatch rightBatch : Batch.

Lemma addDataPoints_readPairs lfi rfi dps st :
  addDataPoints leftBatch rightBatch lfi rfi dps st =
  ps ← readPairs leftBatch rightBatch lfi rfi dps;
  Normal (foldl (λ st p, updateLocals st p.1 p.2) st ps).
Proof.
  revert st. induction dps as [|dp dps IH]; intros st; [done|].
  simpl. unfold addDataPoint.
  destruct (readNumber leftBatch _ _) as [x| |]; simpl; [|done..].
  destruct (readNumber rightBatch _ _) as [y| |]; simpl; [|done..].
  rewrite IH. by destruct (readPairs _ _ _ _ _).
Qed.

Lemma metricStats_pairs σ dps l m ps :
  σ !! l = Some m →
  metricPairs leftBatch rightBatch m dps = Normal ps →
  metricStats leftBatch rightBatch σ dps l =
  Normal (finishStats (foldl (λ st p, updateLocals st p.1 p.2) initialLocals ps)).
Proof.
  intros Hl Hps. unfold metricStats, metricPairs in *.
  rewrite Hl, addDataPoints_readPairs, Hps. done.
Qed.

Lemma computeStats_loop_Forall2 σ dps metrics acc :
  (∀ l, l ∈ metrics → ∃ s, metricStats leftBatch rightBatch σ dps l = Normal s) →
  ∃ new,
    computeStats_loop leftBatch rightBatch σ dps metrics acc = Normal (acc ++ new) ∧
    Forall2 (λ l s, metricStats leftBatch rightBatch σ dps l = Normal s) metrics new.
Proof.
  revert acc. induction metrics as [|l metrics IH]; intros acc H.
  - exists []. simpl. by rewrite app_nil_r.
  - destruct (H l) as [s Hs]; [left|].
    destruct (IH (acc ++ [s])) as (new & Hnew & HF).
    { intros l' Hl'. apply H. by right. }
    exists (s :: new). simpl. rewrite Hs. simpl. rewrite Hnew.
    split; [by rewrite <- app_assoc | by constructor].
Qed.

Lemma readPairs_length lfi rfi dps ps :
  readPairs leftBatch rightBatch lfi rfi dps = Normal ps → length ps = length dps.
Proof.
  revert ps. induction dps as [|dp dps IH]; intros ps; simpl.
  - by intros [= <-].
  - destruct (readNumber leftBatch _ _); simpl; [|done..].
    destruct (readNumber rightBatch _ _); simpl; [|done..].
    destruct (readPairs _ _ _ _ _); simpl; [|done..].
    intros [= <-]. simpl. f_equal. by apply IH.
Qed.

Lemma foldl_updateLocals_numDataPoints ps st :
  numDataPoints (foldl (λ st p, updateLocals st p.1 p.2) st ps)
  = (numDataPoints st + length ps)%nat.
Proof.
  revert st. induction ps as [|p ps IH]; intros st; simpl; [lia|].
  rewrite IH. simpl. lia.
Qed.

Lemma foldl_updateLocals_leftSum ps st :
  leftSum (foldl (λ st p, updateLocals st p.1 p.2) st ps)
  = foldl add (leftSum st) ps.*1.
Proof. revert st. induction ps as [|p ps IH]; intros st; simpl; [done|by rewrite IH]. Qed.

Lemma foldl_updateLocals_rightSum ps st :
  rightSum (foldl (λ st p, updateLocals st p.1 p.2) st ps)
  = foldl add (rightSum st) ps.*2.
Proof. revert st. induction ps as [|p ps IH]; intros st; simpl; [done|by rewrite IH]. Qed.

Lemma foldl_updateLocals_min_max ps st :
  numDataPoints st ≠ 0%nat →
  minRatio (fieldStats (foldl (λ st p, updateLocals st p.1 p.2) st ps))
    = foldl Math_min (minRatio (fieldStats st)) (ratios ps) ∧
  maxRatio (fieldStats (foldl (λ st p, updateLocals st p.1 p.2) st ps))
    = foldl Math_max (maxRatio (fieldStats st)) (ratios ps).
Proof.
  revert st. induction ps as [|p ps IH]; intros st Hn; simpl; [done|].
  destruct (IH (updateLocals st p.1 p.2)) as [-> ->]; [done|].
  unfold updateLocals. simpl.
  destruct (numDataPoints st =? 0)%nat eqn:E; [by apply Nat.eqb_eq in E|done].
Qed.

Lemma finishStats_min_max st :
  minRatio (finishStats st) = minRatio (fieldStats st) ∧
  maxRatio (finishStats st) = maxRatio (fieldStats st).
Proof. unfold finishStats. by destruct (0 <? numDataPoints st)%nat. Qed.

(** The statistics of a metric over a non-empty list of value pairs. *)
Lemma stats_of_pairs p ps :
  let s := finishStats (foldl (λ st p, updateLocals st p.1 p.2) initialLocals (p :: ps)) in
  arithmeticMean s = getRatio (sum (p :: ps).*1) (sum (p :: ps).*2) ∧
  minRatio s = foldl Math_min (getRatio p.1 p.2) (ratios ps) ∧
  maxRatio s = foldl Math_max (getRatio p.1 p.2) (ratios ps).
Proof.
  intros s. subst s.
  destruct (finishStats_min_max
    (foldl (λ st p, updateLocals st p.1 p.2) initialLocals (p :: ps))) as [-> ->].
  split.
  - unfold finishStats. rewrite foldl_updateLocals_numDataPoints.
    simpl numDataPoints. simpl length.
    replace (0 <? 0 + S (length ps))%nat with true
      by (symmetry; apply Nat.ltb_lt; lia).
    simpl arithmeticMean.
    by rewrite foldl_updateLocals_leftSum, foldl_updateLocals_rightSum.
  - simpl foldl at 1 3.
    by destruct (foldl_updateLocals_min_max ps (updateLocals initialLocals p.1 p.2)).
Qed.



End ComputeStatsProperties.

Section ComputeStatsTheorems.

Context `{GM : GeometricMeanOps}.
Variables leftBatch rightBatch : Batch.

Lemma computeStats_returns σ dps metrics :
  statsInputOk leftBatch rightBatch σ dps metrics →
  ∃ stats,
    computeStats leftBatch rightBatch σ dps metrics = Normal stats ∧
    Forall2 (λ l s, ∀ m ps,
               σ !! l = Some m →
               metricPairs leftBatch rightBatch m dps = Normal ps →
               s = finishStats (foldl (λ st p, updateLocals st p.1 p.2)
                                  initialLocals ps))
      metrics stats.
Proof.
  intros Hok.
  destruct (computeStats_loop_Forall2 leftBatch rightBatch σ dps metrics [])
    as (stats & Hrun & HF).
  { intros l Hl. destruct (Hok l Hl) as (m & ps & Hm & Hps).
    eexists. by eapply metricStats_pairs. }
  exists stats. split; [done|].
  eapply Forall2_impl; [exact HF|]. intros l s Hs m ps Hm Hps. simpl in Hs.
  rewrite (metricStats_pairs _ _ _ _ _ _ _ Hm Hps) in Hs. congruence.
Qed.

(** C2. With an empty list of matches, [computeStats] returns one
    [FieldMetricStats] per metric, in the order of the metrics, and each
    of them holds the value [1] in its four members [geometricMean],
    [minRatio], [maxRatio] and [arithmeticMean]. *)
Theorem computeStats_no_match σ metrics :
  (∀ l, l ∈ metrics → is_Some (σ !! l)) →
  ∃ stats,
    computeStats leftBatch rightBatch σ [] metrics = Normal stats ∧
    length stats = length metrics ∧
    ∀ i l, metrics !! i = Some l →
      ∃ s, stats !! i = Some s ∧
           geometricMean s = of_Z 1 ∧ minRatio s = of_Z 1 ∧
           maxRatio s = of_Z 1 ∧ arithmeticMean s = of_Z 1.
Proof.
  intros Halloc.
  destruct (computeStats_returns σ [] metrics) as (stats & Hrun & HF).
  { intros l Hl. destruct (Halloc l Hl) as [m Hm]. by exists m, []. }
  exists stats. split; [done|]. split; [symmetry; by eapply Forall2_length|].
  intros i l Hi.
  destruct (Forall2_lookup_l _ _ _ _ _ HF Hi) as (s & Hs & Hspec).
  exists s. split; [done|].
  destruct (Halloc l) as [m Hm]; [by eapply list_elem_of_lookup_2|].
  by rewrite (Hspec m [] Hm eq_refl).
Qed.

(** C4. Over a non-empty list of matches, the [arithmeticMean] that
    [computeStats] returns for a metric is [getRatio] applied to the sum of
    the left values and the sum of the right values of the matched rows. *)
Theorem computeStats_arithmeticMean σ dps metrics :
  dps ≠ [] →
  statsInputOk leftBatch rightBatch σ dps metrics →
  ∃ stats,
    computeStats leftBatch rightBatch σ dps metrics = Normal stats ∧
    length stats = length metrics ∧
    ∀ i l m ps,
      metrics !! i = Some l → σ !! l = Some m →
      metricPairs leftBatch rightBatch m dps = Normal ps →
      ∃ s, stats !! i = Some s ∧
           arithmeticMean s = getRatio (sum ps.*1) (sum ps.*2).
Proof.
  intros Hne Hok.
  destruct (computeStats_returns σ dps metrics Hok) as (stats & Hrun & HF).
  exists stats. split; [done|]. split; [symmetry; by eapply Forall2_length|].
  intros i l m ps Hi Hm Hps.
  destruct (Forall2_lookup_l _ _ _ _ _ HF Hi) as (s & Hs & Hspec).
  exists s. split; [done|]. rewrite (Hspec m ps Hm Hps).
  destruct ps as [|p ps].
  - apply readPairs_length in Hps. by destruct dps.
  - apply stats_of_pairs.
Qed.

(** C5. Over a non-empty list of matches, the [minRatio] and [maxRatio]
    that [computeStats] returns for a metric are obtained from the ratio of
    the first match by taking [Math.min], respectively [Math.max], with the
    ratios of the later matches.  When no ratio is [NaN], as is the case
    when the values read are finite, they are the least and the greatest
    of the ratios, and if some ratio is [+Infinity] then [maxRatio] is
    [+Infinity]. *)
Theorem computeStats_min_max σ dps metrics :
  dps ≠ [] →
  statsInputOk leftBatch rightBatch σ dps metrics →
  ∃ stats,
    computeStats leftBatch rightBatch σ dps metrics = Normal stats ∧
    length stats = length metrics ∧
    ∀ i l m ps,
      metrics !! i = Some l → σ !! l = Some m →
      metricPairs leftBatch rightBatch m dps = Normal ps →
      ∃ s r0 rs,
        stats !! i = Some s ∧ ratios ps = r0 :: rs ∧
        minRatio s = foldl Math_min r0 rs ∧
        maxRatio s = foldl Math_max r0 rs ∧
        (Forall not_nan (ratios ps) →
           is_minimum (minRatio s) (ratios ps) ∧
           is_maximum (maxRatio s) (ratios ps) ∧
           (Infinity ∈ ratios ps → maxRatio s = Infinity)) ∧
        (Forall (λ p, is_finite p.1 = true ∧ is_finite p.2 = true) ps →
           Forall not_nan (ratios ps)).
Proof.
  intros Hne Hok.
  destruct (computeStats_returns σ dps metrics Hok) as (stats & Hrun & HF).
  exists stats. split; [done|]. split; [symmetry; by eapply Forall2_length|].
  intros i l m ps Hi Hm Hps.
  destruct (Forall2_lookup_l _ _ _ _ _ HF Hi) as (s & Hs & Hspec).
  destruct ps as [|p ps].
  { apply readPairs_length in Hps. by destruct dps. }
  pose proof (Hspec _ _ Hm Hps) as ->.
  eexists _, (getRatio p.1 p.2), (ratios ps).
  destruct (stats_of_pairs p ps) as (_ & Hmin & Hmax).
  rewrite Hmin, Hmax. do 4 (split; [done|]). split.
  - intros Hnan.
    change (ratios (p :: ps)) with (getRatio p.1 p.2 :: ratios ps) in *.
    pose proof (foldl_Math_min_minimum _ _ Hnan) as Hlo.
    pose proof (foldl_Math_max_maximum _ _ Hnan) as Hhi.
    do 2 (split; [done|]).
    intros Hinf. apply Infinity_le. by apply Hhi.
  - intros Hfin. apply Forall_fmap. eapply Forall_impl; [exact Hfin|].
    intros q [? ?]. by apply getRatio_finite.
Qed.

End ComputeStatsTheorems.

Lemma computeStats_no_match_witness :
  ∃ stats,
    computeStats exampleLeft exampleRight exampleStore [] [0%nat; 1%nat; 0%nat]
      = Normal stats ∧
    length stats = 3%nat ∧
    ∀ i l, [0%nat; 1%nat; 0%nat] !! i = Some l →
      ∃ s, stats !! i = Some s ∧
           geometricMean s = of_Z 1 ∧ minRatio s = of_Z 1 ∧
           maxRatio s = of_Z 1 ∧ arithmeticMean s = of_Z 1.
Proof.
  apply (computeStats_no_match exampleLeft exampleRight exampleStore
           [0%nat; 1%nat; 0%nat]).
  intros l Hl. apply lookup_lt_is_Some. simpl.
  apply list_elem_of_In in Hl. simpl in Hl. lia.
Defined.

Lemma computeStats_arithmeticMean_witness :
  ∃ stats s,
    computeStats threeLeft threeRight exampleStore threeMatches [0%nat]
      = Normal stats ∧
    stats !! 0%nat = Some s ∧
    arithmeticMean s
    = getRatio (sum [of_Z 1; of_Z 5; of_Z 4]) (sum [of_Z 2; of_Z 0; of_Z 2]).
Proof.
  destruct (computeStats_arithmeticMean threeLeft threeRight exampleStore
              threeMatches [0%nat]) as (stats & Hrun & _ & Hmean).
  - discriminate.
  - intros l Hl. apply list_elem_of_In in Hl. simpl in Hl.
    destruct Hl as [<- | []]. eexists _, _. split; reflexivity.
  - destruct (Hmean 0%nat 0%nat (mkFieldMetric true [1%nat; 1%nat])
                [(of_Z 1, of_Z 2); (of_Z 5, of_Z 0); (of_Z 4, of_Z 2)]
                eq_refl eq_refl eq_refl) as (s & Hs & Hy).
    by exists stats, s.
Defined.

Lemma computeStats_min_max_witness :
  ∃ stats s,
    computeStats threeLeft threeRight exampleStore threeMatches [0%nat]
      = Normal stats ∧
    stats !! 0%nat = Some s ∧
    is_minimum (minRatio s)
      [getRatio (of_Z 1) (of_Z 2); getRatio (of_Z 5) (of_Z 0);
       getRatio (of_Z 4) (of_Z 2)] ∧
    maxRatio s = Infinity.
Proof.
  destruct (computeStats_min_max threeLeft threeRight exampleStore
              threeMatches [0%nat]) as (stats & Hrun & _ & Hratios).
  - discriminate.
  - intros l Hl. apply list_elem_of_In in Hl. simpl in Hl.
    destruct Hl as [<- | []]. eexists _, _. split; reflexivity.
  - destruct (Hratios 0%nat 0%nat (mkFieldMetric true [1%nat; 1%nat])
                [(of_Z 1, of_Z 2); (of_Z 5, of_Z 0); (of_Z 4, of_Z 2)]
                eq_refl eq_refl eq_refl)
      as (s & r0 & rs & Hs & _ & _ & _ & Hordered & Hfinite).
    destruct Hordered as (Hlo & _ & Hinf).
    + apply Hfinite. repeat constructor.
    + exists stats, s. do 3 (split; [done|]).
      apply Hinf. right. left.
Defined.

(** The scenario of the design document: one match with the values [10]
    and [20].  The geometric mean shown is what the example accumulator
    reports for the single ratio. *)
Example computeStats_end_to_end :
  computeStats exampleLeft exampleRight exampleStore [mkMatch 0 0] [0%nat]
  = Normal [ {| geometricMean := (of_Z 1 / of_Z 2)%num;
                minRatio := (of_Z 1 / of_Z 2)%num;
                maxRatio := (of_Z 1 / of_Z 2)%num;
                arithmeticMean := (of_Z 1 / of_Z 2)%num |} ].
Proof. vm_compute. reflexivity. Qed.

(** ** [BatchSelection] *)

Lemma foldl_uniqueValues_add (values : list string) (f : FieldFilter) :
  Filter.rangeStart (foldl Filter.uniqueValues_add f values) = Filter.rangeStart f ∧
  Filter.rangeEnd (foldl Filter.uniqueValues_add f values) = Filter.rangeEnd f ∧
  Filter.uniqueValues (foldl Filter.uniqueValues_add f values)
    = list_to_set values ∪ Filter.uniqueValues f.
Proof.
  revert f. induction values as [|v values IH]; intros f; simpl.
  - do 2 (split; [done|]). by rewrite (left_id_L ∅ (∪)).
  - destruct (IH (Filter.uniqueValues_add f v)) as (-> & -> & ->).
    do 2 (split; [done|]). simpl.
    by rewrite (assoc_L (∪)), (comm_L (∪) (list_to_set values) {[v]}).
Qed.

Lemma createFieldFilter_spec (field : Field) :
  Filter.rangeStart (createFieldFilter field) = rangeStart field ∧
  Filter.rangeEnd (createFieldFilter field) = rangeEnd field ∧
  Filter.uniqueValues (createFieldFilter field)
    = if isNumber field then ∅ else list_to_set (uniqueValuesArray field).
Proof.
  unfold createFieldFilter. destruct (isNumber field); simpl; [done|].
  destruct (foldl_uniqueValues_add (uniqueValuesArray field)
    (Filter.set_rangeEnd
       (Filter.set_rangeStart Filter.new_FieldFilter (rangeStart field))
       (rangeEnd field))) as (-> & -> & ->).
  do 2 (split; [done|]). simpl. by rewrite (right_id_L ∅ (∪)).
Qed.

Lemma createFieldFilters_fmap (fs : list Field) (acc : list FieldFilter) :
  createFieldFilters fs acc = acc ++ (createFieldFilter <$> fs).
Proof.
  revert acc. induction fs as [|f fs IH]; intros acc; simpl.
  - by rewrite app_nil_r.
  - by rewrite IH, <- app_assoc.
Qed.

(** C8. The constructor of [BatchSelection] makes one filter per field of
    the batch, in the order of the fields; each filter starts with the
    range of its field and, for a field that is not numeric, with the set
    of the values of the field.  It passes these filters to
    [enableDefaultFilters] in its one call of that function, and keeps what
    the call leaves: as many filters as there are fields, provided
    [enableDefaultFilters] neither adds nor removes a filter.  The listener
    for FILTER_CHANGED does not call [enableDefaultFilters] and leaves the
    filters as they are. *)
Theorem BatchSelection_constructor
    (enableDefaultFilters : Batch → list FieldFilter → list FieldFilter)
    (getFilteredRowIndices : Batch → list FieldFilter → list nat)
    (selectedBatch : Batch) :
  ∃ created,
    length created = length (fields selectedBatch) ∧
    (∀ i field, fields selectedBatch !! i = Some field →
       ∃ fieldFilter,
         created !! i = Some fieldFilter ∧
         Filter.rangeStart fieldFilter = rangeStart field ∧
         Filter.rangeEnd fieldFilter = rangeEnd field ∧
         (isNumber field = false →
            Filter.uniqueValues fieldFilter
            = list_to_set (uniqueValuesArray field))) ∧
    filter isEnableDefaultFiltersCall
      (new_BatchSelection enableDefaultFilters selectedBatch).2
      = [Call_enableDefaultFilters selectedBatch created] ∧
    batch (new_BatchSelection enableDefaultFilters selectedBatch).1
      = selectedBatch ∧
    fieldFilters (new_BatchSelection enableDefaultFilters selectedBatch).1
      = enableDefaultFilters selectedBatch created ∧
    ((∀ b fs, length (enableDefaultFilters b fs) = length fs) →
       length (fieldFilters
                 (new_BatchSelection enableDefaultFilters selectedBatch).1)
       = length (fields selectedBatch)) ∧
    ∀ this batchIndex,
      filter isEnableDefaultFiltersCall
        (onFilterChanged getFilteredRowIndices this batchIndex).2 = [] ∧
      fieldFilters (onFilterChanged getFilteredRowIndices this batchIndex).1
        = fieldFilters this.
Proof.
  exists (createFieldFilter <$> fields selectedBatch).
  assert (Hcreated : createFieldFilters (fields selectedBatch) []
                     = createFieldFilter <$> fields selectedBatch)
    by apply createFieldFilters_fmap.
  unfold new_BatchSelection. rewrite Hcreated. simpl.
  split; [by rewrite length_fmap|]. split.
  { intros i field Hi. exists (createFieldFilter field).
    rewrite list_lookup_fmap, Hi. split; [done|].
    destruct (createFieldFilter_spec field) as (-> & -> & ->).
    do 2 (split; [done|]). by intros ->. }
  do 3 (split; [done|]). split; [intros Hlen; by rewrite Hlen, length_fmap|].
  intros this batchIndex. unfold onFilterChanged.
  by destruct (negb (batchIndex =? index (batch this))%nat).
Qed.

Lemma BatchSelection_constructor_witness :
  ∃ created,
    length created = 3%nat ∧
    filter isEnableDefaultFiltersCall
      (new_BatchSelection exampleDefaultFilters exampleLeft).2
      = [Call_enableDefaultFilters exampleLeft created] ∧
    length (fieldFilters (new_BatchSelection exampleDefaultFilters exampleLeft).1)
      = 3%nat.
Proof.
  destruct (BatchSelection_constructor exampleDefaultFilters (λ _ _, [])
              exampleLeft) as (created & Hlen & _ & Hcalls & _ & _ & Hkept & _).
  exists created. split; [exact Hlen|]. split; [exact Hcalls|].
  apply Hkept. intros b fs. unfold exampleDefaultFilters. apply length_fmap.
Defined.

(** ** [MatchesUi] *)

(** C7. A MATCHES_INFO_REQUEST for the reference batch selection is
    ignored: the panel stays as it is, with the batch selection it
    displayed, its visibility and no update requested.  A request for any
    other index displays the batch selection of that index. *)
Theorem onMatchesInfoRequest_reference_ignored (this : MatchesUi) :
  onMatchesInfoRequest this (referenceBatchSelectionIndex (state this)) = this ∧
  ∀ batchIndex,
    batchIndex ≠ referenceBatchSelectionIndex (state this) →
    batchSelection (onMatchesInfoRequest this batchIndex)
      = batchSelections (state this) !! batchIndex ∧
    style_display (onMatchesInfoRequest this batchIndex) = display_block ∧
    updatesRequested (onMatchesInfoRequest this batchIndex)
      = S (updatesRequested this).
Proof.
  unfold onMatchesInfoRequest. split.
  - by rewrite Nat.eqb_refl.
  - intros batchIndex Hne. apply Nat.eqb_neq in Hne. by rewrite Hne.
Qed.

(** ** Runs on the example data *)

Example Math_max_NaN : Math_max Infinity NaN = NaN.
Proof. reflexivity. Qed.

Example Math_min_zeros : Math_min zero (S754_zero true) = S754_zero true.
Proof. reflexivity. Qed.

(** Ratios [1/2; +Infinity; 2]: the least is [1/2], the greatest is
    [+Infinity]; the totals are [10] and [4]. *)
Example computeStats_infinite_ratio :
  computeStats threeLeft threeRight exampleStore threeMatches [0%nat]
  = Normal [ {| geometricMean := of_Z 2;
                minRatio := (of_Z 1 / of_Z 2)%num;
                maxRatio := Infinity;
                arithmeticMean := (of_Z 10 / of_Z 4)%num |} ].
Proof. vm_compute. reflexivity. Qed.

(** Ratios [1; 1/2; 1/4] with totals [3] and [7]: the arithmetic mean is
    [3/7], not the mean [7/12] of the ratios. *)
Example computeStats_ratio_of_totals :
  computeStats threeLeft threeRight exampleStore threeMatches [1%nat]
  = Normal [ {| geometricMean := (of_Z 1 / of_Z 4)%num;
                minRatio := (of_Z 1 / of_Z 4)%num;
                maxRatio := of_Z 1;
                arithmeticMean := (of_Z 3 / of_Z 7)%num |} ] ∧
  (of_Z 3 / of_Z 7)%num ≠ (of_Z 7 / of_Z 12)%num.
Proof. split; [vm_compute; reflexivity | vm_compute; discriminate]. Qed.

(** A string under the cast is outside the typed semantics; a missing row
    raises. *)
Example computeStats_untyped :
  computeStats exampleLeft exampleRight [mkFieldMetric true [0%nat; 0%nat]]
    [mkMatch 0 0] [0%nat] = Untyped.
Proof. reflexivity. Qed.

Example computeStats_missing_row :
  computeStats exampleLeft exampleRight exampleStore [mkMatch 7 0] [0%nat]
  = TypeError.
Proof. reflexivity. Qed.

Example enableDefaultMetrics_example :
  enableDefaultMetrics exampleLeft [1%nat; 2%nat]
    [ mkFieldMetric false [0%nat; 0%nat]; mkFieldMetric false [1%nat; 1%nat];
      mkFieldMetric false [0%nat; 0%nat] ]
  = ([ mkFieldMetric false [0%nat; 0%nat]; mkFieldMetric true [1%nat; 1%nat];
       mkFieldMetric false [0%nat; 0%nat] ], Normal ()).
Proof. reflexivity. Qed.

(** A metric without indices makes [enableDefaultMetrics] raise after the
    metrics before it were handled. *)
Example enableDefaultMetrics_raises :
  enableDefaultMetrics exampleLeft [0%nat; 1%nat; 0%nat]
    [ mkFieldMetric false [1%nat]; mkFieldMetric false [] ]
  = ([ mkFieldMetric true [1%nat]; mkFieldMetric false [] ], TypeError).
Proof. reflexivity. Qed.

(** Step 2 with a single enabled metric that occurs twice in the list: no
    other enabled metric exists, so it is used for both axes. *)
Example selectPlotMetrics_alias :
  selectPlotMetrics exampleStore exampleLeft [1%nat; 0%nat; 0%nat]
  = Normal (Some 0%nat, Some 0%nat).
Proof. reflexivity. Qed.

(** Step 3: nothing enabled. *)
Example selectPlotMetrics_none_enabled :
  selectPlotMetrics exampleStore exampleLeft [1%nat; 1%nat]
  = Normal (Some 1%nat, Some 1%nat).
Proof. reflexivity. Qed.

(** Step 4: no metric. *)
Example selectPlotMetrics_empty :
  selectPlotMetrics exampleStore exampleLeft [] = Normal (None, None).
Proof. reflexivity. Qed.

(** An enabled metric whose first index names no field of the first batch
    makes [selectPlotMetrics] raise. *)
Example selectPlotMetrics_raises :
  selectPlotMetrics [mkFieldMetric true [9%nat]] exampleLeft [0%nat]
  = TypeError.
Proof. reflexivity. Qed.

(** * Further properties *)

(** X1. [getRatio] returns [NaN] exactly when [b] is [NaN], or [a] is
    [NaN] and [b] is not zero, or both are infinite.  In particular
    [getRatio(NaN, 0)] is [+Infinity]. *)
Theorem getRatio_NaN_iff (a b : number) :
  is_nan (getRatio a b) = true ↔
  is_nan b = true ∨
  (is_nan a = true ∧ (b === zero)%num = false) ∨
  (is_infinite a = true ∧ is_infinite b = true).
Proof.
  destruct (is_finite a && is_finite b) eqn:Hfin.
  - apply andb_true_iff in Hfin as [Ha Hb].
    pose proof (getRatio_finite a b Ha Hb) as Hn. unfold not_nan in Hn.
    rewrite Hn. split; [done|].
    destruct a as [?|?| |? ? ?], b as [?|?| |? ? ?]; simpl in *;
      intros [? | [[? ?] | [? ?]]]; done.
  - destruct a as [[]|[]| |[] ma ea], b as [[]|[]| |[] mb eb];
      try discriminate Hfin; simpl; clear Hfin;
      (split; [intros H; try discriminate H; auto
              | intros [H | [[H1 H2] | [H1 H2]]];
                try discriminate; try reflexivity]).
Qed.


(** ** More on [enableDefaultMetrics] *)

Lemma hasDefaultId_enableAt fb handled l m :
  hasDefaultId fb (enableAt fb handled l m) = hasDefaultId fb m.
Proof. unfold enableAt. by destruct (_ && _). Qed.

Lemma metricOk_ext fb σ1 σ2 l :
  (fieldIndices <$> σ1 !! l) = (fieldIndices <$> σ2 !! l) →
  metricOk fb σ1 l = metricOk fb σ2 l.
Proof.
  unfold metricOk, firstField.
  destruct (σ1 !! l) as [m1|], (σ2 !! l) as [m2|]; simpl; try done.
  by intros [= ->].
Qed.

Lemma okPrefix_ext fb σ1 σ2 metrics :
  (∀ l, (fieldIndices <$> σ1 !! l) = (fieldIndices <$> σ2 !! l)) →
  okPrefix fb σ1 metrics = okPrefix fb σ2 metrics.
Proof.
  intros H. induction metrics as [|l rest IH]; simpl; [done|].
  by rewrite (metricOk_ext fb σ1 σ2 l (H l)), IH.
Qed.

Lemma fieldIndices_insert_set_enabled (σ : store) l m k :
  σ !! l = Some m →
  (fieldIndices <$> <[l := set_enabled m]> σ !! k) = (fieldIndices <$> σ !! k).
Proof.
  intros Hl. destruct (decide (k = l)) as [->|Hne].
  - rewrite list_lookup_insert_eq by (by eapply lookup_lt_Some). by rewrite Hl.
  - by rewrite list_lookup_insert_ne.
Qed.

(** The run of [enableDefaultMetrics] in closed form: the metrics before
    the first ill-formed one are handled, and the call raises unless all
    are. *)
Lemma enableDefaultMetrics_closed fb metrics σ :
  enableDefaultMetrics fb metrics σ
  = (imap (enableAt fb (okPrefix fb σ metrics)) σ,
     if bool_decide (okPrefix fb σ metrics = metrics)
     then Normal () else TypeError).
Proof.
  assert (Hid : ∀ σ : store, imap (enableAt fb []) σ = σ).
  { intros σ'. apply list_eq. intros k. rewrite list_lookup_imap.
    by destruct (σ' !! k). }
  revert σ. induction metrics as [|l rest IH]; intros σ; simpl.
  { by rewrite Hid. }
  unfold metricOk.
  destruct (σ !! l) as [m|] eqn:Hl; simpl; [|by rewrite Hid].
  destruct (firstField fb m) as [field|] eqn:Hf; simpl; [|by rewrite Hid].
  set (σ1 := if isDefaultMetricId (id field)
             then <[l := set_enabled m]> σ else σ).
  assert (Hfi : ∀ k, (fieldIndices <$> σ1 !! k) = (fieldIndices <$> σ !! k)).
  { intros k. unfold σ1. destruct (isDefaultMetricId (id field)); [|done].
    by apply fieldIndices_insert_set_enabled. }
  rewrite IH, (okPrefix_ext fb σ1 σ rest Hfi). f_equal.
  - apply list_eq. intros k. rewrite !list_lookup_imap.
    destruct (decide (k = l)) as [->|Hne].
    + rewrite Hl. unfold σ1, enableAt, hasDefaultId. simpl.
      rewrite (bool_decide_eq_true_2 (l ∈ l :: _)) by left. rewrite Hf. simpl.
      destruct (isDefaultMetricId (id field)) eqn:Hd.
      * rewrite list_lookup_insert_eq by (by eapply lookup_lt_Some). simpl.
        by destruct (bool_decide _ && _).
      * rewrite Hl. simpl. by rewrite Hf, Hd, andb_false_r.
    + assert (σ1 !! k = σ !! k) as ->.
      { unfold σ1. destruct (isDefaultMetricId (id field)); [|done].
        by rewrite list_lookup_insert_ne. }
      destruct (σ !! k) as [m'|]; simpl; [|done]. unfold enableAt.
      f_equal.
      replace (bool_decide (k ∈ l :: okPrefix fb σ rest))
        with (bool_decide (k ∈ okPrefix fb σ rest)); [done|].
      apply bool_decide_ext. rewrite elem_of_cons. tauto.
  - destruct (bool_decide (okPrefix fb σ rest = rest)) eqn:E.
    + apply bool_decide_eq_true in E. by rewrite bool_decide_eq_true_2 by (by rewrite E).
    + apply bool_decide_eq_false in E.
      rewrite bool_decide_eq_false_2; [done|]. by intros [= ?].
Qed.

Lemma metricOk_true fb σ l :
  metricOk fb σ l = true ↔
  ∃ m field, σ !! l = Some m ∧ firstField fb m = Some field.
Proof.
  unfold metricOk. destruct (σ !! l) as [m|]; simpl.
  - destruct (firstField fb m) as [field|] eqn:Hf; split; try done.
    + intros _. by exists m, field.
    + intros (? & ? & [= <-] & ?). congruence.
  - split; [done|]. by intros (? & ? & ? & ?).
Qed.

Lemma okPrefix_all fb σ metrics :
  okPrefix fb σ metrics = metrics ↔ metricsOk fb σ metrics.
Proof.
  unfold metricsOk. induction metrics as [|l rest IH]; simpl.
  - split; [|done]. by intros _ l ?%elem_of_nil.
  - destruct (metricOk fb σ l) eqn:E.
    + split.
      * intros [= Hrest] l' [-> | Hl']%elem_of_cons.
        -- by apply metricOk_true.
        -- by apply IH.
      * intros H. f_equal. apply IH. intros l' Hl'. apply H. by right.
    + split; [done|]. intros H.
      assert (metricOk fb σ l = true) by (apply metricOk_true, H; left).
      congruence.
Qed.

Lemma enableAt_idemp fb handled l m :
  enableAt fb handled l (enableAt fb handled l m) = enableAt fb handled l m.
Proof.
  unfold enableAt at 2. destruct (_ && _) eqn:E; [|by unfold enableAt; rewrite E].
  unfold enableAt, hasDefaultId, firstField in *. simpl. by rewrite E.
Qed.

Lemma fieldIndices_enableAt fb handled l m :
  fieldIndices (enableAt fb handled l m) = fieldIndices m.
Proof. unfold enableAt. by destruct (_ && _). Qed.

(** X4. Running [enableDefaultMetrics] a second time changes nothing and
    ends as the first run did. *)
Theorem enableDefaultMetrics_idempotent (firstBatch : Batch)
    (metrics : list loc) (σ : store) :
  enableDefaultMetrics firstBatch metrics
    (enableDefaultMetrics firstBatch metrics σ).1
  = enableDefaultMetrics firstBatch metrics σ.
Proof.
  rewrite !enableDefaultMetrics_closed. simpl.
  assert (Hpre : okPrefix firstBatch
                   (imap (enableAt firstBatch (okPrefix firstBatch σ metrics)) σ)
                   metrics
                 = okPrefix firstBatch σ metrics).
  { apply okPrefix_ext. intros l. rewrite list_lookup_imap.
    destruct (σ !! l); simpl; [|done]. by rewrite fieldIndices_enableAt. }
  rewrite Hpre. f_equal.
  apply list_eq. intros k. rewrite !list_lookup_imap.
  destruct (σ !! k); simpl; [|done]. by rewrite enableAt_idemp.
Qed.

(** X5. On well-formed metrics the store that [enableDefaultMetrics]
    leaves depends on which metrics are listed, not on their order or on
    repetitions. *)
Theorem enableDefaultMetrics_order_irrelevant (firstBatch : Batch)
    (metrics1 metrics2 : list loc) (σ : store) :
  metricsOk firstBatch σ metrics1 →
  metricsOk firstBatch σ metrics2 →
  (∀ l, l ∈ metrics1 ↔ l ∈ metrics2) →
  enableDefaultMetrics firstBatch metrics1 σ
  = enableDefaultMetrics firstBatch metrics2 σ.
Proof.
  intros H1 H2 Hsame. rewrite !enableDefaultMetrics_closed.
  apply okPrefix_all in H1, H2. rewrite H1, H2.
  rewrite !bool_decide_eq_true_2 by done. f_equal.
  apply imap_ext. intros k m _. unfold enableAt.
  replace (bool_decide (k ∈ metrics1)) with (bool_decide (k ∈ metrics2));
    [done|]. apply bool_decide_ext. by rewrite Hsame.
Qed.

Lemma enableDefaultMetrics_app fb metrics1 metrics2 σ :
  enableDefaultMetrics fb (metrics1 ++ metrics2) σ
  = match enableDefaultMetrics fb metrics1 σ with
    | (σ1, Normal _) => enableDefaultMetrics fb metrics2 σ1
    | r => r
    end.
Proof.
  revert σ. induction metrics1 as [|l rest IH]; intros σ; simpl; [done|].
  destruct (σ !! l) as [m|]; [|done].
  destruct (firstField fb m); [|done]. apply IH.
Qed.

(** X6. [enableDefaultMetrics] raises a [TypeError] exactly when some
    listed metric is not an object of the store or has a first index that
    names no field of the first batch.  The metrics listed before the
    first such metric are handled as if the list ended there, and none
    after it is. *)
Theorem enableDefaultMetrics_stops_at_ill_formed (firstBatch : Batch)
    (metrics : list loc) (σ : store) :
  ((enableDefaultMetrics firstBatch metrics σ).2 = Normal () ↔
   metricsOk firstBatch σ metrics) ∧
  ((enableDefaultMetrics firstBatch metrics σ).2 = TypeError ↔
   ¬ metricsOk firstBatch σ metrics) ∧
  ∀ before bad after,
    metrics = before ++ bad :: after →
    metricsOk firstBatch σ before →
    metricOk firstBatch σ bad = false →
    enableDefaultMetrics firstBatch metrics σ
    = ((enableDefaultMetrics firstBatch before σ).1, TypeError).
Proof.
  rewrite enableDefaultMetrics_closed. simpl.
  rewrite <- okPrefix_all. split; [|split].
  - destruct (bool_decide _) eqn:E.
    + by apply bool_decide_eq_true in E.
    + apply bool_decide_eq_false in E. by split.
  - destruct (bool_decide _) eqn:E.
    + apply bool_decide_eq_true in E. by split.
    + by apply bool_decide_eq_false in E.
  - intros before bad after -> Hbefore Hbad.
    rewrite <- enableDefaultMetrics_closed, enableDefaultMetrics_app.
    pose proof (enableDefaultMetrics_closed firstBatch before σ) as Hrun.
    apply okPrefix_all in Hbefore. rewrite Hbefore in Hrun.
    rewrite bool_decide_eq_true_2 in Hrun by done. rewrite Hrun. simpl.
    assert (metricOk firstBatch (imap (enableAt firstBatch before) σ) bad = false)
      as Hbad'.
    { rewrite <- Hbad. apply metricOk_ext. rewrite list_lookup_imap.
      destruct (σ !! bad); simpl; [|done]. by rewrite fieldIndices_enableAt. }
    unfold metricOk in Hbad'.
    destruct (imap (enableAt firstBatch before) σ !! bad) as [m|]; [|done].
    simpl in Hbad'. by destruct (firstField firstBatch m).
Qed.

(** ** From the catalogue to the defaults, the plot and the statistics *)

Section PipelineProperties.

Variable areFieldsComparable : Field → Field → bool.

Lemma createMetrics_catalogue batches σ :
  createMetrics areFieldsComparable batches σ
  = (σ ++ catalogue areFieldsComparable batches,
     Normal (seq (length σ) (length (catalogue areFieldsComparable batches)))).
Proof.
  destruct batches as [|first others] eqn:Hb; simpl.
  - by rewrite app_nil_r.
  - rewrite <- Hb.
    by rewrite (visitFields_spec areFieldsComparable batches
                  (entries (fields first)) σ []) by (by rewrite Hb).
Qed.

Lemma catalogue_elem_of batches m :
  m ∈ catalogue areFieldsComparable batches →
  ∃ first i field,
    head batches = Some first ∧ fields first !! i = Some field ∧
    m = metricFor areFieldsComparable batches (i, field) ∧
    eligible areFieldsComparable batches field = true.
Proof.
  destruct batches as [|first others] eqn:Hb; simpl; [by intros ?%elem_of_nil|].
  rewrite <- Hb. intros ([i field] & -> & Hin)%list_elem_of_fmap.
  apply list_elem_of_filter in Hin as [He Hin]. simpl in He.
  apply entries_from_elem_of in Hin as [_ Hin]. rewrite Nat.sub_0_r in Hin.
  by exists first, i, field.
Qed.

Lemma forallb_hasNumericMatch field others :
  forallb (hasNumericMatch areFieldsComparable field) others = true →
  ∀ k b, others !! k = Some b →
    ∃ j f, foundIndices areFieldsComparable field others !! k = Some j ∧
           fields b !! j = Some f ∧ isNumber f = true ∧
           areFieldsComparable field f = true.
Proof.
  induction others as [|b0 others IH]; simpl; [done|].
  intros [H0 Hrest]%andb_true_iff k b Hk.
  unfold hasNumericMatch, firstComparable in H0.
  destruct (findIndex _ (fields b0)) as [j0|] eqn:E; simpl in *; [|done].
  destruct (findIndex_Some _ _ _ E) as (f0 & Hf0 & Hcmp & _).
  rewrite Hf0 in H0. destruct k as [|k]; simpl in *.
  - injection Hk as <-. by exists j0, f0.
  - by apply IH.
Qed.

Lemma foundIndices_all field others :
  forallb (hasNumericMatch areFieldsComparable field) others = true →
  length (foundIndices areFieldsComparable field others) = length others.
Proof.
  induction others as [|b0 others IH]; simpl; [done|].
  intros [H0 Hrest]%andb_true_iff.
  unfold hasNumericMatch, firstComparable in H0.
  destruct (findIndex _ (fields b0)); simpl in *; [|done].
  f_equal. by apply IH.
Qed.

Lemma catalogue_lookup batches σ σ' ls l m :
  createMetrics areFieldsComparable batches σ = (σ', Normal ls) →
  l ∈ ls → σ' !! l = Some m →
  m ∈ catalogue areFieldsComparable batches.
Proof.
  rewrite createMetrics_catalogue. intros [= <- <-] Hl Hm.
  apply elem_of_seq in Hl as [Hge Hlt].
  rewrite lookup_app_r in Hm by done. by eapply list_elem_of_lookup_2.
Qed.

Lemma catalogue_indices batches m :
  m ∈ catalogue areFieldsComparable batches →
  length (fieldIndices m) = length batches ∧
  enabled m = false ∧
  ∃ first anchor,
    head batches = Some first ∧ firstField first m = Some anchor ∧
    ∀ k b, batches !! k = Some b →
      ∃ j f, fieldIndices m !! k = Some j ∧ fields b !! j = Some f ∧
             isNumber f = true ∧
             (k ≠ 0%nat → areFieldsComparable anchor f = true).
Proof.
  intros (first & i & field & Hfirst & Hi & -> & He)%catalogue_elem_of.
  pose proof He as He'. unfold eligible in He'.
  rewrite !andb_true_iff in He'. destruct He' as [[[Hnum Hall] _] _].
  pose proof (forallb_hasNumericMatch field (drop 1 batches) Hall) as Hothers.
  destruct batches as [|first' others]; [done|]. injection Hfirst as ->.
  simpl in *. split; [|split; [done|]].
  { f_equal. by apply foundIndices_all. }
  exists first, field. split; [done|]. split; [by unfold firstField; simpl|].
  intros [|k] b Hk; simpl in *.
  - injection Hk as <-. by exists i, field.
  - destruct (Hothers k b Hk) as (j & f & ? & ? & ? & ?). by exists j, f.
Qed.

(** X2. Every index that a metric made by [createMetrics] holds names a
    numeric field of the batch at the same position, and the fields named
    in the batches after the first are comparable with the field named in
    the first. *)
Theorem createMetrics_indices_numeric (batches : list Batch) (σ σ' : store)
    (ls : list loc) :
  createMetrics areFieldsComparable batches σ = (σ', Normal ls) →
  ∀ l m, l ∈ ls → σ' !! l = Some m →
    length (fieldIndices m) = length batches ∧
    ∃ first anchor,
      head batches = Some first ∧ firstField first m = Some anchor ∧
      ∀ k b, batches !! k = Some b →
        ∃ j f, fieldIndices m !! k = Some j ∧ fields b !! j = Some f ∧
               isNumber f = true ∧
               (k ≠ 0%nat → areFieldsComparable anchor f = true).
Proof.
  intros Hrun l m Hl Hm.
  destruct (catalogue_indices batches m) as (Hlen & _ & Hrest);
    [by eapply catalogue_lookup|done].
Qed.

Lemma catalogue_metricsOk batches σ first :
  head batches = Some first →
  metricsOk first (σ ++ catalogue areFieldsComparable batches)
    (seq (length σ) (length (catalogue areFieldsComparable batches))).
Proof.
  intros Hfirst l Hl. apply elem_of_seq in Hl as [Hge Hlt].
  destruct (lookup_lt_is_Some_2 (catalogue areFieldsComparable batches)
              (l - length σ)) as [m Hm]; [lia|].
  destruct (catalogue_indices batches m) as (_ & _ & first' & anchor & Hf & Ha & _);
    [by eapply list_elem_of_lookup_2|].
  assert (first' = first) as -> by congruence.
  exists m, anchor. by rewrite lookup_app_r.
Qed.

(** X3. The metrics that [createMetrics] makes are well-formed for
    [enableDefaultMetrics] with the first batch: the call returns, it
    leaves the objects that the store held before [createMetrics] as they
    were, and afterwards a new metric is enabled exactly when the id of
    its field in the first batch is ENCODED_SIZE, ENCODING_DURATION or
    DECODING_DURATION. *)
Theorem createMetrics_then_enableDefaultMetrics (batches : list Batch)
    (first : Batch) (σ σ1 : store) (ls : list loc) :
  head batches = Some first →
  createMetrics areFieldsComparable batches σ = (σ1, Normal ls) →
  ∃ σ2,
    enableDefaultMetrics first ls σ1 = (σ2, Normal ()) ∧
    (∀ l, (l < length σ)%nat → σ2 !! l = σ !! l) ∧
    ∀ l, l ∈ ls →
      ∃ m field,
        σ2 !! l = Some m ∧ firstField first m = Some field ∧
        (enabled m = true ↔
         id field ∈ [ENCODED_SIZE; ENCODING_DURATION; DECODING_DURATION]).
Proof.
  intros Hfirst. rewrite createMetrics_catalogue. intros [= <- <-].
  set (ms := catalogue areFieldsComparable batches).
  pose proof (catalogue_metricsOk batches σ first Hfirst) as Hok. fold ms in Hok.
  rewrite enableDefaultMetrics_closed.
  apply okPrefix_all in Hok as Hpre. rewrite Hpre.
  rewrite bool_decide_eq_true_2 by done.
  eexists. split; [reflexivity|]. split.
  - intros l Hl. rewrite list_lookup_imap, lookup_app_l by done.
    destruct (σ !! l) as [m|]; simpl; [|done]. unfold enableAt.
    rewrite bool_decide_eq_false_2; [done|].
    rewrite elem_of_seq. lia.
  - intros l Hl. destruct (Hok l Hl) as (m & field & Hm & Hf).
    exists (enableAt first (seq (length σ) (length ms)) l m), field.
    rewrite list_lookup_imap, Hm. split; [done|].
    unfold enableAt, hasDefaultId. rewrite Hf.
    rewrite bool_decide_eq_true_2 by done. simpl.
    rewrite <- isDefaultMetricId_elem_of.
    assert (enabled m = false) as Hdis.
    { apply elem_of_seq in Hl as [Hge Hlt]. rewrite lookup_app_r in Hm by done.
      destruct (catalogue_indices batches m) as (_ & ? & _);
        [by eapply list_elem_of_lookup_2|done]. }
    destruct (isDefaultMetricId (id field)); simpl.
    + split; [exact Hf|]. by split.
    + split; [exact Hf|]. rewrite Hdis. by split.
Qed.

End PipelineProperties.

(** ** More on [computeStats] *)

Section ComputeStatsMore.

Context `{GM : GeometricMeanOps}.
Variables leftBatch rightBatch : Batch.

Lemma computeStats_loop_acc σ dps metrics acc :
  computeStats_loop leftBatch rightBatch σ dps metrics acc
  = new ← computeStats_loop leftBatch rightBatch σ dps metrics [];
    Normal (acc ++ new).
Proof.
  revert acc. induction metrics as [|l rest IH]; intros acc; simpl.
  - by rewrite app_nil_r.
  - destruct (metricStats leftBatch rightBatch σ dps l) as [s| |]; simpl;
      [|done..].
    rewrite (IH (acc ++ [s])), (IH [s]).
    destruct (computeStats_loop leftBatch rightBatch σ dps rest []); simpl;
      [|done..].
    by rewrite <- app_assoc.
Qed.

(** X12. [computeStats] handles the metrics one after the other and
    independently: over a concatenation of two lists of metrics it returns
    the statistics of the first list followed by those of the second, and
    it ends as the first of the two calls that does not return. *)
Theorem computeStats_app (σ : store) (dps : list Match)
    (metrics1 metrics2 : list loc) :
  computeStats leftBatch rightBatch σ dps (metrics1 ++ metrics2)
  = stats1 ← computeStats leftBatch rightBatch σ dps metrics1;
    stats2 ← computeStats leftBatch rightBatch σ dps metrics2;
    Normal (stats1 ++ stats2).
Proof.
  unfold computeStats. induction metrics1 as [|l rest IH]; simpl.
  - by destruct (computeStats_loop leftBatch rightBatch σ dps metrics2 []).
  - destruct (metricStats leftBatch rightBatch σ dps l) as [s| |]; simpl;
      [|done..].
    rewrite (computeStats_loop_acc σ dps (rest ++ metrics2) [s]), IH.
    rewrite (computeStats_loop_acc σ dps rest [s]).
    destruct (computeStats_loop leftBatch rightBatch σ dps rest []); simpl;
      [|done..].
    by destruct (computeStats_loop leftBatch rightBatch σ dps metrics2 []).
Qed.



Lemma metricPairs_ext (m1 m2 : FieldMetric) dps :
  fieldIndices m1 = fieldIndices m2 →
  metricPairs leftBatch rightBatch m1 dps
  = metricPairs leftBatch rightBatch m2 dps.
Proof. unfold metricPairs. by intros ->. Qed.

(** X13. [computeStats] reads the [fieldIndices] of the metrics and nothing
    else of them: two stores whose objects hold the same indices give the
    same result, whatever the [enabled] flags. *)
Theorem computeStats_ignores_enabled (σ1 σ2 : store) (dps : list Match)
    (metrics : list loc) :
  (∀ l, l ∈ metrics →
        (fieldIndices <$> σ1 !! l) = (fieldIndices <$> σ2 !! l)) →
  computeStats leftBatch rightBatch σ1 dps metrics
  = computeStats leftBatch rightBatch σ2 dps metrics.
Proof.
  unfold computeStats. generalize (@nil FieldMetricStats).
  induction metrics as [|l rest IH]; intros acc H; simpl; [done|].
  assert (metricStats leftBatch rightBatch σ1 dps l
          = metricStats leftBatch rightBatch σ2 dps l) as ->.
  { unfold metricStats. specialize (H l (list_elem_of_here _ _)).
    destruct (σ1 !! l) as [m1|], (σ2 !! l) as [m2|]; simpl in H; try done.
    by injection H as ->. }
  destruct (metricStats leftBatch rightBatch σ2 dps l); simpl; [|done..].
  apply IH. intros l' Hl'. apply H. by right.
Qed.

End ComputeStatsMore.

Lemma add_zero_l (x : number) : is_neg_zero x = false → (zero + x)%num = x.
Proof. by destruct x as [[]|[]| |]. Qed.

Section ComputeStatsValues.

Context `{GM : GeometricMeanOps}.
Variables leftBatch rightBatch : Batch.

Lemma foldl_updateLocals_geometricMeanAcc ps st :
  geometricMeanAcc (foldl (λ st p, updateLocals st p.1 p.2) st ps)
  = foldl gm_add (geometricMeanAcc st) (ratios ps).
Proof.
  revert st. induction ps as [|p ps IH]; intros st; simpl; [done|].
  by rewrite IH.
Qed.

(** X14. Over a non-empty list of matches, the [geometricMean] that
    [computeStats] returns for a metric is what the accumulator reports
    after the ratios of the matches were added to a new accumulator, one
    by one in the order of the matches. *)
Theorem computeStats_geometricMean (σ : store) (dps : list Match)
    (metrics : list loc) :
  dps ≠ [] →
  statsInputOk leftBatch rightBatch σ dps metrics →
  ∃ stats,
    computeStats leftBatch rightBatch σ dps metrics = Normal stats ∧
    ∀ i l m ps,
      metrics !! i = Some l → σ !! l = Some m →
      metricPairs leftBatch rightBatch m dps = Normal ps →
      ∃ s, stats !! i = Some s ∧
           geometricMean s
           = gm_get (foldl gm_add new_GeometricMean (ratios ps)).
Proof.
  intros Hne Hok.
  destruct (computeStats_returns leftBatch rightBatch σ dps metrics Hok)
    as (stats & Hrun & HF).
  exists stats. split; [done|]. intros i l m ps Hi Hm Hps.
  destruct (Forall2_lookup_l _ _ _ _ _ HF Hi) as (s & Hs & Hspec).
  exists s. split; [done|]. rewrite (Hspec m ps Hm Hps).
  unfold finishStats. rewrite foldl_updateLocals_numDataPoints.
  apply readPairs_length in Hps.
  replace (0 <? numDataPoints initialLocals + length ps)%nat with true.
  - simpl. by rewrite foldl_updateLocals_geometricMeanAcc.
  - symmetry. apply Nat.ltb_lt. destruct dps; [done|]. simpl in *. lia.
Qed.

(** X15. When no ratio is [NaN], the [minRatio] that [computeStats] returns
    for a metric is at most its [maxRatio], with or without matches. *)
Theorem computeStats_min_le_max (σ : store) (dps : list Match)
    (metrics : list loc) :
  statsInputOk leftBatch rightBatch σ dps metrics →
  ∃ stats,
    computeStats leftBatch rightBatch σ dps metrics = Normal stats ∧
    ∀ i l m ps,
      metrics !! i = Some l → σ !! l = Some m →
      metricPairs leftBatch rightBatch m dps = Normal ps →
      Forall not_nan (ratios ps) →
      ∃ s, stats !! i = Some s ∧ le (minRatio s) (maxRatio s) = true.
Proof.
  intros Hok.
  destruct (computeStats_returns leftBatch rightBatch σ dps metrics Hok)
    as (stats & Hrun & HF).
  exists stats. split; [done|]. intros i l m ps Hi Hm Hps Hnan.
  destruct (Forall2_lookup_l _ _ _ _ _ HF Hi) as (s & Hs & Hspec).
  exists s. split; [done|]. rewrite (Hspec m ps Hm Hps).
  destruct ps as [|p ps]; [done|].
  destruct (stats_of_pairs p ps) as (_ & -> & ->).
  change (ratios (p :: ps)) with (getRatio p.1 p.2 :: ratios ps) in Hnan.
  destruct (foldl_Math_min_minimum _ _ Hnan) as [_ Hlo].
  destruct (foldl_Math_max_maximum _ _ Hnan) as [_ Hhi].
  eapply number_le_trans; [apply Hlo | apply Hhi]; left.
Qed.

Lemma stats_of_single x y :
  let s := finishStats
             (foldl (λ st p, updateLocals st p.1 p.2) initialLocals [(x, y)]) in
  minRatio s = getRatio x y ∧ maxRatio s = getRatio x y ∧
  geometricMean s = gm_get (gm_add new_GeometricMean (getRatio x y)) ∧
  arithmeticMean s = getRatio (zero + x)%num (zero + y)%num.
Proof. done. Qed.

(** X16. With a single match, [minRatio] and [maxRatio] are the ratio of
    that match, [geometricMean] is what the accumulator reports for it,
    and [arithmeticMean] is that ratio too unless one of the two values is
    [-0] (the sums start from [+0], and [+0 + -0] is [+0]). *)
Theorem computeStats_single_match (σ : store) (dp : Match)
    (metrics : list loc) :
  statsInputOk leftBatch rightBatch σ [dp] metrics →
  ∃ stats,
    computeStats leftBatch rightBatch σ [dp] metrics = Normal stats ∧
    ∀ i l m x y,
      metrics !! i = Some l → σ !! l = Some m →
      metricPairs leftBatch rightBatch m [dp] = Normal [(x, y)] →
      ∃ s, stats !! i = Some s ∧
           minRatio s = getRatio x y ∧ maxRatio s = getRatio x y ∧
           geometricMean s = gm_get (gm_add new_GeometricMean (getRatio x y)) ∧
           (is_neg_zero x = false → is_neg_zero y = false →
              arithmeticMean s = getRatio x y).
Proof.
  intros Hok.
  destruct (computeStats_returns leftBatch rightBatch σ [dp] metrics Hok)
    as (stats & Hrun & HF).
  exists stats. split; [done|]. intros i l m x y Hi Hm Hps.
  destruct (Forall2_lookup_l _ _ _ _ _ HF Hi) as (s & Hs & Hspec).
  exists s. split; [done|]. rewrite (Hspec m _ Hm Hps).
  destruct (stats_of_single x y) as (-> & -> & -> & ->).
  do 3 (split; [done|]). intros Hx Hy. by rewrite !add_zero_l.
Qed.

(** X17. The metrics that [createMetrics] makes are well-formed for
    [computeStats]: for two batches of the list whose [index] is their
    position, whose rows hold a number in the column of every numeric
    field, and for matches that name rows of these batches,
    [computeStats] returns one entry per metric. *)
Theorem createMetrics_then_computeStats
    (areFieldsComparable : Field → Field → bool) (batches : list Batch)
    (σ σ1 : store) (ls : list loc) (dps : list Match) :
  createMetrics areFieldsComparable batches σ = (σ1, Normal ls) →
  batches !! index leftBatch = Some leftBatch →
  batches !! index rightBatch = Some rightBatch →
  rowsTyped leftBatch → rowsTyped rightBatch →
  matchesInRange leftBatch rightBatch dps →
  ∃ stats,
    computeStats leftBatch rightBatch σ1 dps ls = Normal stats ∧
    length stats = length ls.
Proof.
  intros Hrun HL HR HtL HtR Hrange.
  assert (Hok : statsInputOk leftBatch rightBatch σ1 dps ls).
  { intros l Hl.
    assert (is_Some (σ1 !! l)) as [m Hm].
    { rewrite createMetrics_catalogue in Hrun. injection Hrun as <- <-.
      apply lookup_lt_is_Some. rewrite length_app.
      apply elem_of_seq in Hl. lia. }
    destruct (catalogue_indices areFieldsComparable batches m)
      as (_ & _ & first & anchor & _ & _ & Hidx); [by eapply catalogue_lookup|].
    destruct (Hidx _ _ HL) as (jL & fL & HjL & HfL & HnL & _).
    destruct (Hidx _ _ HR) as (jR & fR & HjR & HfR & HnR & _).
    exists m. unfold metricPairs. rewrite HjL, HjR.
    cut (∃ ps, readPairs leftBatch rightBatch (Some jL) (Some jR) dps
               = Normal ps); [intros [ps Hps]; by exists ps|].
    clear -Hrange HtL HtR HfL HfR HnL HnR.
    induction dps as [|dp dps IH]; [by exists []|].
    destruct IH as [ps Hps].
    { intros dp' Hdp'. apply Hrange. by right. }
    destruct (Hrange dp) as [HiL HiR]; [left|].
    apply lookup_lt_is_Some in HiL as [rowL HrowL].
    apply lookup_lt_is_Some in HiR as [rowR HrowR].
    destruct (HtL rowL jL fL) as [x Hx];
      [by eapply list_elem_of_lookup_2|done..|].
    destruct (HtR rowR jR fR) as [y Hy];
      [by eapply list_elem_of_lookup_2|done..|].
    exists ((x, y) :: ps). simpl. unfold readNumber.
    rewrite HrowL, HrowR. simpl. rewrite Hx, Hy. simpl. by rewrite Hps. }
  destruct (computeStats_returns leftBatch rightBatch σ1 dps ls Hok)
    as (stats & Hstats & HF).
  exists stats. split; [done|]. symmetry. by eapply Forall2_length.
Qed.

End ComputeStatsValues.

(** ** More on [selectPlotMetrics] *)

Lemma find_some_exists {A} (q : A → bool) (l : list A) (x : A) :
  x ∈ l → q x = true → ∃ y, List.find q l = Some y.
Proof.
  induction l as [|z l IH]; simpl; [by intros ?%elem_of_nil|].
  intros [-> | Hx]%elem_of_cons Hq.
  - rewrite Hq. by eexists.
  - destruct (q z); [by eexists|]. by apply IH.
Qed.

Lemma enabledWithIdAt_enabled σ fb target l :
  enabledWithIdAt σ fb target l = true →
  enabledAt σ l = true ∧ fieldIdAt σ fb l = Some target.
Proof.
  unfold enabledWithIdAt. intros [? ?%bool_decide_eq_true]%andb_true_iff.
  done.
Qed.

(** The selection by precedence takes its metrics from the list; it takes
    enabled ones if there is any; and it takes two different ones exactly
    when two different enabled ones are listed. *)
Lemma by_precedence_facts σ fb metrics :
  ∃ x y,
    selectPlotMetrics_by_precedence σ fb metrics = (x, y) ∧
    (∀ l, x = Some l ∨ y = Some l → l ∈ metrics) ∧
    ((∃ l, l ∈ metrics ∧ enabledAt σ l = true) →
       ∃ lx ly, x = Some lx ∧ y = Some ly ∧
                enabledAt σ lx = true ∧ enabledAt σ ly = true) ∧
    (x ≠ y ↔
     ∃ l1 l2, l1 ∈ metrics ∧ l2 ∈ metrics ∧ l1 ≠ l2 ∧
              enabledAt σ l1 = true ∧ enabledAt σ l2 = true).
Proof.
  unfold selectPlotMetrics_by_precedence.
  set (size := List.find (enabledWithIdAt σ fb ENCODED_SIZE) metrics).
  set (encoding := List.find (enabledWithIdAt σ fb ENCODING_DURATION) metrics).
  set (decoding := List.find (enabledWithIdAt σ fb DECODING_DURATION) metrics).
  assert (Hfirst : ∀ x y target,
    List.find (enabledWithIdAt σ fb ENCODED_SIZE) metrics = Some x →
    List.find (enabledWithIdAt σ fb target) metrics = Some y →
    target ≠ ENCODED_SIZE →
    (∀ l, Some x = Some l ∨ Some y = Some l → l ∈ metrics) ∧
    ((∃ l, l ∈ metrics ∧ enabledAt σ l = true) →
       ∃ lx ly, Some x = Some lx ∧ Some y = Some ly ∧
                enabledAt σ lx = true ∧ enabledAt σ ly = true) ∧
    (Some x ≠ Some y ↔
     ∃ l1 l2, l1 ∈ metrics ∧ l2 ∈ metrics ∧ l1 ≠ l2 ∧
              enabledAt σ l1 = true ∧ enabledAt σ l2 = true)).
  { intros x y target [Hx [Hex Hix]%enabledWithIdAt_enabled]%find_elem_of
      [Hy [Hey Hiy]%enabledWithIdAt_enabled]%find_elem_of Hne.
    assert (x ≠ y) by (intros ->; congruence).
    split; [intros l [[= <-] | [= <-]]; done|].
    split; [intros _; by exists x, y|].
    split; [intros _; by exists x, y | intros _; congruence]. }
  assert (Hsecond :
    ∃ x y,
      match List.find (enabledAt σ) metrics with
      | Some x =>
          (Some x,
           Some (default x
                   (List.find (λ l, enabledAt σ l && bool_decide (l ≠ x))
                      metrics)))
      | None =>
          match metrics with
          | first :: _ => (Some first, Some first)
          | [] => (None, None)
          end
      end = (x, y) ∧
      (∀ l, x = Some l ∨ y = Some l → l ∈ metrics) ∧
      ((∃ l, l ∈ metrics ∧ enabledAt σ l = true) →
         ∃ lx ly, x = Some lx ∧ y = Some ly ∧
                  enabledAt σ lx = true ∧ enabledAt σ ly = true) ∧
      (x ≠ y ↔
       ∃ l1 l2, l1 ∈ metrics ∧ l2 ∈ metrics ∧ l1 ≠ l2 ∧
                enabledAt σ l1 = true ∧ enabledAt σ l2 = true)).
  { destruct (List.find (enabledAt σ) metrics) as [x|] eqn:Ex.
    - apply find_elem_of in Ex as Hx. destruct Hx as [Hx Hex].
      destruct (List.find (λ l, enabledAt σ l && bool_decide (l ≠ x)) metrics)
        as [y|] eqn:Ey; simpl.
      + apply find_elem_of in Ey as [Hy [Hey Hne%bool_decide_eq_true]%andb_true_iff].
        eexists _, _. split; [done|].
        split; [intros l [[= <-] | [= <-]]; done|].
        split; [intros _; by exists x, y|].
        split; [intros _; by exists y, x | intros _; congruence].
      + eexists _, _. split; [done|].
        split; [intros l [[= <-] | [= <-]]; done|].
        split; [intros _; by exists x, x|].
        split; [done|]. intros (l1 & l2 & H1 & H2 & Hne & He1 & He2).
        exfalso.
        pose proof (find_none_cons _ _ Ey l1 H1) as Hn1.
        pose proof (find_none_cons _ _ Ey l2 H2) as Hn2.
        simpl in Hn1, Hn2. rewrite He1 in Hn1. rewrite He2 in Hn2.
        simpl in *. apply bool_decide_eq_false in Hn1, Hn2.
        apply Hne. apply dec_stable in Hn1, Hn2. congruence.
    - assert (Hnone : ∀ l, l ∈ metrics → enabledAt σ l = false)
        by (by apply find_none_cons).
      destruct metrics as [|first rest]; eexists _, _; (split; [done|]).
      + split; [by intros l [? | ?]|].
        split; [by intros (l & ?%elem_of_nil & _)|].
        split; [done|]. by intros (l1 & _ & ?%elem_of_nil & _).
      + split; [intros l [[= <-] | [= <-]]; left|].
        split; [intros (l & Hl & He); by rewrite (Hnone l Hl) in He|].
        split; [done|]. intros (l1 & _ & Hl1 & _ & _ & He & _).
        by rewrite (Hnone l1 Hl1) in He. }
  destruct size as [x|] eqn:Esize; [|done].
  destruct encoding as [y|] eqn:Eenc.
  - eexists _, _. split; [done|]. by eapply (Hfirst x y ENCODING_DURATION).
  - destruct decoding as [y|] eqn:Edec; [|done].
    eexists _, _. split; [done|]. by eapply (Hfirst x y DECODING_DURATION).
Qed.

(** X7. The metrics that [selectPlotMetrics] returns are taken from the
    list it is given. *)
Theorem selectPlotMetrics_from_list (σ : store) (firstBatch : Batch)
    (metrics : list loc) :
  plotInputOk firstBatch σ metrics →
  ∃ x y,
    selectPlotMetrics σ firstBatch metrics = Normal (x, y) ∧
    ∀ l, x = Some l ∨ y = Some l → l ∈ metrics.
Proof.
  intros Hok. rewrite (selectPlotMetrics_run σ firstBatch metrics Hok).
  destruct (by_precedence_facts σ firstBatch metrics) as (x & y & -> & H & _).
  by exists x, y.
Qed.

(** X8. When some metric of the list is enabled, both metrics that
    [selectPlotMetrics] returns are enabled. *)
Theorem selectPlotMetrics_prefers_enabled (σ : store) (firstBatch : Batch)
    (metrics : list loc) :
  plotInputOk firstBatch σ metrics →
  (∃ l, l ∈ metrics ∧ enabledAt σ l = true) →
  ∃ x y,
    selectPlotMetrics σ firstBatch metrics = Normal (Some x, Some y) ∧
    enabledAt σ x = true ∧ enabledAt σ y = true.
Proof.
  intros Hok Hen. rewrite (selectPlotMetrics_run σ firstBatch metrics Hok).
  destruct (by_precedence_facts σ firstBatch metrics)
    as (x & y & -> & _ & H & _).
  destruct (H Hen) as (lx & ly & -> & -> & ? & ?). by exists lx, ly.
Qed.

(** X9. [selectPlotMetrics] returns two different metrics exactly when
    the list holds two different enabled metrics; otherwise it returns the
    same metric, or nothing, for both axes. *)
Theorem selectPlotMetrics_distinct_iff (σ : store) (firstBatch : Batch)
    (metrics : list loc) :
  plotInputOk firstBatch σ metrics →
  ∃ x y,
    selectPlotMetrics σ firstBatch metrics = Normal (x, y) ∧
    (x ≠ y ↔
     ∃ l1 l2, l1 ∈ metrics ∧ l2 ∈ metrics ∧ l1 ≠ l2 ∧
              enabledAt σ l1 = true ∧ enabledAt σ l2 = true).
Proof.
  intros Hok. rewrite (selectPlotMetrics_run σ firstBatch metrics Hok).
  destruct (by_precedence_facts σ firstBatch metrics)
    as (x & y & -> & _ & _ & H).
  by exists x, y.
Qed.

Lemma fieldIdAt_enableAt fb handled (σ : store) l :
  fieldIdAt (imap (enableAt fb handled) σ) fb l = fieldIdAt σ fb l.
Proof.
  unfold fieldIdAt. rewrite list_lookup_imap.
  destruct (σ !! l) as [m|]; simpl; [|done].
  unfold enableAt. by destruct (_ && _).
Qed.

(** X10. After [createMetrics] and [enableDefaultMetrics] with the first
    batch, [selectPlotMetrics] returns.  If a metric was made for an
    ENCODED_SIZE field and one for an ENCODING_DURATION field of the first
    batch, it returns such metrics: encoded size for x and encoding
    duration for y. *)
Theorem default_plot_is_size_and_duration
    (areFieldsComparable : Field → Field → bool) (batches : list Batch)
    (first : Batch) (σ σ1 : store) (ls : list loc) :
  head batches = Some first →
  createMetrics areFieldsComparable batches σ = (σ1, Normal ls) →
  let σ2 := (enableDefaultMetrics first ls σ1).1 in
  ∃ x y,
    selectPlotMetrics σ2 first ls = Normal (x, y) ∧
    ((∃ l, l ∈ ls ∧ fieldIdAt σ1 first l = Some ENCODED_SIZE) →
     (∃ l, l ∈ ls ∧ fieldIdAt σ1 first l = Some ENCODING_DURATION) →
     ∃ lx ly,
       x = Some lx ∧ y = Some ly ∧ lx ∈ ls ∧ ly ∈ ls ∧
       fieldIdAt σ2 first lx = Some ENCODED_SIZE ∧
       fieldIdAt σ2 first ly = Some ENCODING_DURATION).
Proof.
  intros Hfirst. rewrite createMetrics_catalogue. intros [= <- <-] σ2.
  set (ms := catalogue areFieldsComparable batches) in *.
  set (ls := seq (length σ) (length ms)) in *.
  pose proof (catalogue_metricsOk areFieldsComparable batches σ first Hfirst)
    as Hok. fold ms ls in Hok.
  assert (Hσ2 : σ2 = imap (enableAt first ls) (σ ++ ms)).
  { unfold σ2. rewrite enableDefaultMetrics_closed. simpl.
    apply okPrefix_all in Hok. by rewrite Hok. }
  assert (Hen : ∀ l target,
    l ∈ ls → fieldIdAt (σ ++ ms) first l = Some target →
    isDefaultMetricId target = true →
    enabledWithIdAt σ2 first target l = true).
  { intros l target Hl Hid Hd. unfold enabledWithIdAt.
    rewrite Hσ2, fieldIdAt_enableAt, Hid, bool_decide_eq_true_2 by done.
    rewrite andb_true_r. unfold enabledAt. rewrite list_lookup_imap.
    destruct (Hok l Hl) as (m & field & Hm & Hf). rewrite Hm. simpl.
    unfold fieldIdAt in Hid. rewrite Hm in Hid. simpl in Hid.
    rewrite Hf in Hid. injection Hid as <-.
    unfold enableAt, hasDefaultId. rewrite Hf, Hd.
    by rewrite bool_decide_eq_true_2 by done. }
  assert (Hplot : plotInputOk first σ2 ls).
  { intros l Hl. destruct (Hok l Hl) as (m & field & Hm & Hf).
    exists (enableAt first ls l m). rewrite Hσ2, list_lookup_imap, Hm.
    split; [done|]. intros _. exists field.
    unfold enableAt. by destruct (_ && _). }
  rewrite (selectPlotMetrics_run σ2 first ls Hplot).
  destruct (selectPlotMetrics_by_precedence σ2 first ls) as [x y] eqn:Esel.
  exists x, y. split; [done|].
  intros (l1 & Hl1 & Hid1) (l2 & Hl2 & Hid2).
  destruct (find_some_exists (enabledWithIdAt σ2 first ENCODED_SIZE) ls l1)
    as [lx Hx]; [done|by apply Hen|].
  destruct (find_some_exists (enabledWithIdAt σ2 first ENCODING_DURATION) ls l2)
    as [ly Hy]; [done|by apply Hen|].
  unfold selectPlotMetrics_by_precedence in Esel. rewrite Hx, Hy in Esel.
  injection Esel as <- <-.
  apply find_elem_of in Hx as [? [_ ?]%enabledWithIdAt_enabled].
  apply find_elem_of in Hy as [? [_ ?]%enabledWithIdAt_enabled].
  by exists lx, ly.
Qed.

(** ** More on [BatchSelection] *)

(** X18. Whatever FILTER_CHANGED events arrive, the listener of a
    [BatchSelection] keeps its batch, filters, matches and statistics.  Its
    [filteredRowIndices] are recomputed from the batch and the filters once
    an event for its own batch has arrived.  For every event for its own
    batch, and for no other, it calls [getFilteredRowIndices] and then
    dispatches one FILTERED_DATA_CHANGED event with the index of the
    batch. *)
Theorem onFilterChanged_events
    (getFilteredRowIndices : Batch → list FieldFilter → list nat)
    (this : BatchSelection) (events : list nat) :
  let after := (onFilterChangedEvents getFilteredRowIndices this events).1 in
  let calls := (onFilterChangedEvents getFilteredRowIndices this events).2 in
  batch after = batch this ∧
  fieldFilters after = fieldFilters this ∧
  matchedDataPoints after = matchedDataPoints this ∧
  stats after = stats this ∧
  filteredRowIndices after
    = (if bool_decide (index (batch this) ∈ events)
       then getFilteredRowIndices (batch this) (fieldFilters this)
       else filteredRowIndices this) ∧
  calls
    = filter (λ e, e = index (batch this)) events
      ≫= (λ e, [Call_getFilteredRowIndices (batch this) (fieldFilters this);
                Call_dispatch FILTERED_DATA_CHANGED e]).
Proof.
  revert this. induction events as [|e rest IH]; intros this; simpl; [done|].
  unfold onFilterChanged, updateFilteredRows.
  destruct (decide (e = index (batch this))) as [->|Hne].
  - rewrite Nat.eqb_refl. simpl.
    match goal with
    | |- context [onFilterChangedEvents _ ?t rest] =>
        specialize (IH t); destruct (onFilterChangedEvents _ t rest) as [t2 c2]
    end.
    simpl in *. destruct IH as (-> & -> & -> & -> & Hrows & ->).
    do 4 (split; [done|]). split.
    + rewrite Hrows, (bool_decide_eq_true_2 (_ ∈ _ :: _)) by left.
      by destruct (bool_decide _).
    + by rewrite filter_cons_True by done.
  - apply Nat.eqb_neq in Hne as Hneb. rewrite Hneb. simpl.
    specialize (IH this).
    destruct (onFilterChangedEvents _ this rest) as [t2 c2].
    simpl in *. destruct IH as (-> & -> & -> & -> & Hrows & ->).
    do 4 (split; [done|]). split.
    + rewrite Hrows. 
      replace (bool_decide (index (batch this) ∈ e :: rest))
        with (bool_decide (index (batch this) ∈ rest)); [done|].
      apply bool_decide_ext. rewrite elem_of_cons. split; [tauto|].
      intros [? | ?]; [congruence|done].
    + by rewrite filter_cons_False by done.
Qed.

(** ** More on [MatchesUi] *)

(** X19. From a panel that displays nothing, whatever events and clicks
    follow, the panel keeps its state, and whenever it displays a batch
    selection its display is [block] and the selection is that of an index
    other than the reference index. *)
Theorem panel_never_shows_reference (this : MatchesUi)
    (events : list PanelEvent) :
  batchSelection this = None →
  let after := foldl panelStep this events in
  state after = state this ∧
  ∀ selection, batchSelection after = Some selection →
    style_display after = display_block ∧
    ∃ i, i ≠ referenceBatchSelectionIndex (state this) ∧
         batchSelections (state this) !! i = Some selection.
Proof.
  intros Hclosed. simpl.
  cut (∀ p : MatchesUi,
         state p = state this →
         (∀ selection, batchSelection p = Some selection →
            style_display p = display_block ∧
            ∃ i, i ≠ referenceBatchSelectionIndex (state this) ∧
                 batchSelections (state this) !! i = Some selection) →
         state (foldl panelStep p events) = state this ∧
         ∀ selection, batchSelection (foldl panelStep p events) = Some selection →
            style_display (foldl panelStep p events) = display_block ∧
            ∃ i, i ≠ referenceBatchSelectionIndex (state this) ∧
                 batchSelections (state this) !! i = Some selection).
  { intros H. apply H; [done|]. intros selection. by rewrite Hclosed. }
  induction events as [|ev rest IH]; intros p Hstate Hinv; simpl; [done|].
  apply IH.
  - destruct ev; simpl; try done.
    + unfold onMatchesInfoRequest. by destruct (_ =? _)%nat.
    + unfold onMatchInfoRequest. by destruct (batchSelection p).
  - destruct ev as [i| | |i|i]; simpl; [| |done..].
    + unfold onMatchesInfoRequest.
      destruct (i =? _)%nat eqn:E; [done|]. simpl.
      intros selection Hsel. split; [done|]. exists i.
      apply Nat.eqb_neq in E. rewrite Hstate in *. done.
    + unfold onMatchInfoRequest.
      destruct (batchSelection p) eqn:Ep; [done|]. by rewrite Ep.
Qed.

(** X20. A MATCHES_INFO_REQUEST for an index other than the reference index
    that names no batch selection sets the display to [block] with nothing
    to display, and a later MATCH_INFO_REQUEST leaves the panel so; when
    the index names a batch selection, the MATCH_INFO_REQUEST closes the
    panel.  A MATCH_INFO_REQUEST always leaves the panel without a
    selection, and a second one changes nothing. *)
Theorem request_then_close (this : MatchesUi) (batchIndex : nat) :
  batchIndex ≠ referenceBatchSelectionIndex (state this) →
  let opened := onMatchesInfoRequest this batchIndex in
  (batchSelections (state this) !! batchIndex = None →
     batchSelection opened = None ∧ style_display opened = display_block ∧
     onMatchInfoRequest opened = opened) ∧
  (is_Some (batchSelections (state this) !! batchIndex) →
     batchSelection (onMatchInfoRequest opened) = None ∧
     style_display (onMatchInfoRequest opened) = display_none ∧
     updatesRequested (onMatchInfoRequest opened)
       = S (S (updatesRequested this))) ∧
  ∀ p, batchSelection (onMatchInfoRequest p) = None ∧
       onMatchInfoRequest (onMatchInfoRequest p) = onMatchInfoRequest p.
Proof.
  intros Hne%Nat.eqb_neq. unfold onMatchesInfoRequest. rewrite Hne. simpl.
  repeat split.
  - done.
  - unfold onMatchInfoRequest. simpl. by rewrite H.
  - destruct H as [sel Hsel]. unfold onMatchInfoRequest. simpl. by rewrite Hsel.
  - destruct H as [sel Hsel]. unfold onMatchInfoRequest. simpl. by rewrite Hsel.
  - destruct H as [sel Hsel]. unfold onMatchInfoRequest. simpl. by rewrite Hsel.
  - unfold onMatchInfoRequest. by destruct (batchSelection p) eqn:E.
  - unfold onMatchInfoRequest. by destruct (batchSelection p) eqn:E; simpl; rewrite ?E.
Qed.

(** ** Instances of the further properties on the example data *)

(** Membership in a short list of locations, case by case. *)
Ltac each_loc H :=
  apply list_elem_of_In in H; simpl in H;
  repeat (destruct H as [<- | H]); [..|destruct H].

Ltac rows_typed :=
  let row := fresh "row" in let j := fresh "j" in let f := fresh "f" in
  let Hrow := fresh "Hrow" in let Hf := fresh "Hf" in let Hn := fresh "Hn" in
  intros row j f Hrow Hf Hn;
  apply list_elem_of_In in Hrow; simpl in Hrow;
  repeat (destruct Hrow as [<- | Hrow]); [..|destruct Hrow];
  (destruct j as [|[|[|j]]]; simpl in Hf; [..|discriminate Hf];
   injection Hf as <-; first [discriminate Hn | by eexists]).

Lemma createMetrics_indices_numeric_witness :
  length (fieldIndices (new_FieldMetric [2%nat; 2%nat])) = 2%nat ∧
  ∃ first anchor,
    head exampleBatches = Some first ∧
    firstField first (new_FieldMetric [2%nat; 2%nat]) = Some anchor ∧
    ∀ k b, exampleBatches !! k = Some b →
      ∃ j f, fieldIndices (new_FieldMetric [2%nat; 2%nat]) !! k = Some j ∧
             fields b !! j = Some f ∧ isNumber f = true ∧
             (k ≠ 0%nat → sameIdAndKind anchor f = true).
Proof.
  apply (createMetrics_indices_numeric sameIdAndKind exampleBatches []
           catalogueStore [0%nat; 1%nat] eq_refl 1%nat); [|reflexivity].
  right. left.
Defined.

Lemma createMetrics_then_enableDefaultMetrics_witness :
  ∃ σ2,
    enableDefaultMetrics exampleLeft [0%nat; 1%nat] catalogueStore
      = (σ2, Normal ()) ∧
    (∀ l, (l < 0)%nat → σ2 !! l = ([] : store) !! l) ∧
    ∀ l, l ∈ [0%nat; 1%nat] →
      ∃ m field,
        σ2 !! l = Some m ∧ firstField exampleLeft m = Some field ∧
        (enabled m = true ↔
         id field ∈ [ENCODED_SIZE; ENCODING_DURATION; DECODING_DURATION]).
Proof.
  apply (createMetrics_then_enableDefaultMetrics sameIdAndKind exampleBatches
           exampleLeft [] catalogueStore [0%nat; 1%nat]); reflexivity.
Defined.

Lemma enableDefaultMetrics_order_irrelevant_witness :
  enableDefaultMetrics exampleLeft [0%nat; 1%nat] catalogueStore
  = enableDefaultMetrics exampleLeft [1%nat; 0%nat; 1%nat] catalogueStore.
Proof.
  apply enableDefaultMetrics_order_irrelevant.
  - intros l Hl. each_loc Hl; eexists _, _; split; reflexivity.
  - intros l Hl. each_loc Hl; eexists _, _; split; reflexivity.
  - intros l. rewrite !elem_of_cons, !elem_of_nil. tauto.
Defined.

Lemma selectPlotMetrics_from_list_witness :
  ∃ x y,
    selectPlotMetrics plotStore exampleLeft [0%nat; 1%nat] = Normal (x, y) ∧
    ∀ l, x = Some l ∨ y = Some l → l ∈ [0%nat; 1%nat].
Proof.
  apply selectPlotMetrics_from_list.
  intros l Hl. each_loc Hl; eexists; (split; [reflexivity|]);
    intros _; by eexists.
Defined.

Lemma selectPlotMetrics_prefers_enabled_witness :
  ∃ x y,
    selectPlotMetrics exampleStore exampleLeft [1%nat; 0%nat]
      = Normal (Some x, Some y) ∧
    enabledAt exampleStore x = true ∧ enabledAt exampleStore y = true.
Proof.
  apply selectPlotMetrics_prefers_enabled.
  - intros l Hl. each_loc Hl; eexists; (split; [reflexivity|]);
      intros _; by eexists.
  - exists 0%nat. split; [by right; left | reflexivity].
Defined.

Lemma selectPlotMetrics_distinct_iff_witness :
  ∃ x y,
    selectPlotMetrics plotStore exampleLeft [0%nat; 1%nat] = Normal (x, y) ∧
    (x ≠ y ↔
     ∃ l1 l2, l1 ∈ [0%nat; 1%nat] ∧ l2 ∈ [0%nat; 1%nat] ∧ l1 ≠ l2 ∧
              enabledAt plotStore l1 = true ∧ enabledAt plotStore l2 = true).
Proof.
  apply selectPlotMetrics_distinct_iff.
  intros l Hl. each_loc Hl; eexists; (split; [reflexivity|]);
    intros _; by eexists.
Defined.

Lemma default_plot_is_size_and_duration_witness :
  ∃ lx ly,
    selectPlotMetrics
      (enableDefaultMetrics exampleLeft [0%nat; 1%nat] catalogueStore).1
      exampleLeft [0%nat; 1%nat] = Normal (Some lx, Some ly) ∧
    fieldIdAt (enableDefaultMetrics exampleLeft [0%nat; 1%nat] catalogueStore).1
      exampleLeft lx = Some ENCODED_SIZE ∧
    fieldIdAt (enableDefaultMetrics exampleLeft [0%nat; 1%nat] catalogueStore).1
      exampleLeft ly = Some ENCODING_DURATION.
Proof.
  destruct (default_plot_is_size_and_duration sameIdAndKind exampleBatches
              exampleLeft [] catalogueStore [0%nat; 1%nat] eq_refl eq_refl)
    as (x & y & Hrun & Hplot).
  destruct Hplot as (lx & ly & -> & -> & _ & _ & Hx & Hy).
  - exists 0%nat. split; [left | reflexivity].
  - exists 1%nat. split; [right; left | reflexivity].
  - by exists lx, ly.
Defined.

Lemma computeStats_ignores_enabled_witness :
  computeStats threeLeft threeRight exampleStore threeMatches [0%nat; 1%nat]
  = computeStats threeLeft threeRight catalogueStore threeMatches
      [0%nat; 1%nat].
Proof.
  apply computeStats_ignores_enabled.
  intros l Hl. each_loc Hl; reflexivity.
Defined.

Ltac stats_input_ok :=
  let l := fresh "l" in let Hl := fresh "Hl" in
  intros l Hl; each_loc Hl; eexists _, _; split; reflexivity.

Lemma computeStats_geometricMean_witness :
  ∃ stats s,
    computeStats threeLeft threeRight exampleStore threeMatches [0%nat]
      = Normal stats ∧
    stats !! 0%nat = Some s ∧
    geometricMean s
    = gm_get (foldl gm_add new_GeometricMean
                [getRatio (of_Z 1) (of_Z 2); getRatio (of_Z 5) (of_Z 0);
                 getRatio (of_Z 4) (of_Z 2)]).
Proof.
  destruct (computeStats_geometricMean threeLeft threeRight exampleStore
              threeMatches [0%nat]) as (stats & Hrun & Hmean);
    [discriminate | stats_input_ok |].
  destruct (Hmean 0%nat 0%nat (mkFieldMetric true [1%nat; 1%nat])
              [(of_Z 1, of_Z 2); (of_Z 5, of_Z 0); (of_Z 4, of_Z 2)]
              eq_refl eq_refl eq_refl) as (s & Hs & Hg).
  by exists stats, s.
Defined.

Lemma computeStats_min_le_max_witness :
  ∃ stats s,
    computeStats threeLeft threeRight exampleStore threeMatches [0%nat]
      = Normal stats ∧
    stats !! 0%nat = Some s ∧ le (minRatio s) (maxRatio s) = true.
Proof.
  destruct (computeStats_min_le_max threeLeft threeRight exampleStore
              threeMatches [0%nat]) as (stats & Hrun & Hle);
    [stats_input_ok |].
  destruct (Hle 0%nat 0%nat (mkFieldMetric true [1%nat; 1%nat])
              [(of_Z 1, of_Z 2); (of_Z 5, of_Z 0); (of_Z 4, of_Z 2)]
              eq_refl eq_refl eq_refl) as (s & Hs & Hord).
  - repeat constructor.
  - by exists stats, s.
Defined.

Lemma computeStats_single_match_witness :
  ∃ stats s,
    computeStats exampleLeft exampleRight exampleStore [mkMatch 0 0] [0%nat]
      = Normal stats ∧
    stats !! 0%nat = Some s ∧
    minRatio s = getRatio (of_Z 10) (of_Z 20) ∧
    maxRatio s = getRatio (of_Z 10) (of_Z 20) ∧
    arithmeticMean s = getRatio (of_Z 10) (of_Z 20).
Proof.
  destruct (computeStats_single_match exampleLeft exampleRight exampleStore
              (mkMatch 0 0) [0%nat]) as (stats & Hrun & Hsingle);
    [stats_input_ok |].
  destruct (Hsingle 0%nat 0%nat (mkFieldMetric true [1%nat; 1%nat])
              (of_Z 10) (of_Z 20) eq_refl eq_refl eq_refl)
    as (s & Hs & Hmin & Hmax & _ & Hmean).
  exists stats, s. do 4 (split; [done|]). by apply Hmean.
Defined.

Lemma createMetrics_then_computeStats_witness :
  ∃ stats,
    computeStats exampleLeft exampleRight catalogueStore [mkMatch 0 0]
      [0%nat; 1%nat] = Normal stats ∧
    length stats = 2%nat.
Proof.
  apply (createMetrics_then_computeStats exampleLeft exampleRight
           sameIdAndKind exampleBatches [] catalogueStore [0%nat; 1%nat]
           [mkMatch 0 0]); [reflexivity.. | rows_typed | rows_typed |].
  intros dp Hdp. apply list_elem_of_In in Hdp. simpl in Hdp.
  destruct Hdp as [<- | []]. simpl. lia.
Defined.

Lemma panel_never_shows_reference_witness :
  let after :=
    foldl panelStep examplePanel
      [MatchesInfoRequested 0; MatchesInfoRequested 1; MatchInfoRequested;
       MatchesInfoRequested 1] in
  state after = state examplePanel ∧
  ∀ selection, batchSelection after = Some selection →
    style_display after = display_block ∧
    ∃ i, i ≠ 0%nat ∧
         batchSelections (state examplePanel) !! i = Some selection.
Proof.
  apply (panel_never_shows_reference examplePanel
           [MatchesInfoRequested 0; MatchesInfoRequested 1; MatchInfoRequested;
            MatchesInfoRequested 1]).
  reflexivity.
Defined.

Lemma request_then_close_witness :
  style_display (onMatchesInfoRequest examplePanel 7) = display_block ∧
  onMatchInfoRequest (onMatchesInfoRequest examplePanel 7)
  = onMatchesInfoRequest examplePanel 7.
Proof.
  destruct (request_then_close examplePanel 7) as (Hout & _ & _);
    [discriminate|].
  destruct Hout as (_ & Hdisplay & Hstuck); [reflexivity|]. by split.
Defined.
